(** * ClusterTracker: the Kalman-filter cluster tracker of [point_cloud]

    A shallow embedding of [src/src/cluster_tracker.cpp] and of
    [src/include/point_cloud/cluster_tracker.h], and the properties of the
    tracking cycle checked against it.

    Conventions of the embedding.
    - A C++ [float] is an IEEE binary32 value and a [double] a binary64 value,
      both carried by the Standard Library's [spec_float]; every conversion
      between the two that the C++ performs implicitly is written out.
    - A computation that can leave the defined behaviour of C++ (an index out
      of the range of a [std::vector], a [cv::Mat] or an array) returns an
      [option]: [None] is undefined behaviour, [Some r] a defined result.
    - [std::vector] is a [list]; [v[i]] is the checked lookup [v !! i].
      Sizes and indices are far below 2^31, so that the [int] and [size_t]
      counters of the loops are integers; the sentinel [-1] is the integer.
    - A [cv::KalmanFilter *] stored in [k_filters_] is the only pointer to
      its object: the vector of pointers is a list of filter values. *)

From Stdlib Require Import ZArith Lia QArith Qcanon.
From Stdlib Require Import Floats.SpecFloat.
From stdpp Require Import base option list numbers.

Local Open Scope Z_scope.

(** ** IEEE arithmetic *)

Module IEEE.

Definition float : Type := spec_float.
Definition double : Type := spec_float.

(** Formats: precision and the exponent of the infinities. *)
Definition prec32 : Z := 24.
Definition emax32 : Z := 128.
Definition prec64 : Z := 53.
Definition emax64 : Z := 1024.

(** Rounding of a value to a format; zeros, infinities and NaN are kept. *)
Definition round_to (prec emax : Z) (v : spec_float) : spec_float :=
  match v with
  | S754_finite s m e => binary_normalize prec emax (cond_Zopp s (Zpos m)) e s
  | _ => v
  end.

(** [(double) f] and [(float) d]. *)
Definition double_of_float (f : float) : double := round_to prec64 emax64 f.
Definition float_of_double (d : double) : float := round_to prec32 emax32 d.

(** An integer converted to [float], as C++ does for [0], [1] and
    [size_t] operands of a [float] expression. *)
Definition float_of_Z (n : Z) : float := binary_normalize prec32 emax32 n 0 false.
Definition double_of_Z (n : Z) : double := binary_normalize prec64 emax64 n 0 false.

Definition fzero : float := S754_zero false.
Definition dzero : double := S754_zero false.

(** [std::numeric_limits<float>::max()]. *)
Definition FLT_MAX : float := Eval vm_compute in SFmax_float prec32 emax32.

Definition fadd : float -> float -> float := SFadd prec32 emax32.
Definition fsub : float -> float -> float := SFsub prec32 emax32.
Definition fmul : float -> float -> float := SFmul prec32 emax32.
Definition fdiv : float -> float -> float := SFdiv prec32 emax32.
Definition fltb : float -> float -> bool := SFltb.
Definition feqb : float -> float -> bool := SFeqb.

Definition dadd : double -> double -> double := SFadd prec64 emax64.
Definition dsub : double -> double -> double := SFsub prec64 emax64.
Definition dmul : double -> double -> double := SFmul prec64 emax64.
Definition dsqrt : double -> double := SFsqrt prec64 emax64.

(** The literals [0.01f] and [0.1]; [1/100] and [1/10] correctly rounded. *)
Definition f0_01 : float := Eval vm_compute in fdiv (float_of_Z 1) (float_of_Z 100).
Definition d0_01 : double := Eval vm_compute in SFdiv prec64 emax64 (double_of_Z 1) (double_of_Z 100).
Definition d0_1 : double := Eval vm_compute in SFdiv prec64 emax64 (double_of_Z 1) (double_of_Z 10).

End IEEE.
Export IEEE.

(* Values of the two formats are computed, never unfolded step by step. *)
Global Arguments float_of_Z : simpl never.
Global Arguments double_of_Z : simpl never.
Global Arguments double_of_float : simpl never.
Global Arguments float_of_double : simpl never.
Global Arguments fadd : simpl never.
Global Arguments fsub : simpl never.
Global Arguments fmul : simpl never.
Global Arguments fdiv : simpl never.
Global Arguments fltb : simpl never.
Global Arguments feqb : simpl never.
Global Arguments dadd : simpl never.
Global Arguments dsub : simpl never.
Global Arguments dmul : simpl never.
Global Arguments dsqrt : simpl never.

(** ** Vectors and loops *)

(** [v[i]] with a signed index: an [int] index that is negative converts to
    a huge [size_t], which is out of range like any index past the end. *)
Definition vec_at {A} (v : list A) (i : Z) : option A :=
  if (0 <=? i) then v !! Z.to_nat i else None.

(** [v[i] = a]. *)
Definition vec_set {A} (v : list A) (i : Z) (a : A) : option (list A) :=
  if (0 <=? i) && (i <? Z.of_nat (length v)) then Some (<[Z.to_nat i := a]> v) else None.

(** [v.erase(v.begin() + i)]. *)
Definition vec_erase {A} (v : list A) (i : nat) : option (list A) :=
  if (i <? length v)%nat then Some (delete i v) else None.

(** A [for] loop over the values [xs] of its variable, threading the
    variables the body updates; the loop is abandoned at the first
    undefined step. *)
Fixpoint for_each {S A} (body : S -> A -> option S) (xs : list A) (s : S) : option S :=
  match xs with
  | [] => Some s
  | a :: xs' => s' ← body s a; for_each body xs' s'
  end.

(** [for (size_t i = 0; i < n; i++)]. *)
Definition upto (n : nat) : list nat := seq 0 n.

(** ** Points *)

(** [geometry_msgs::Point]: three [float64] fields. *)
Record Point : Type := mkPoint { pt_x : double; pt_y : double; pt_z : double }.

(** [pcl::PointXYZ]: three [float] fields. *)
Record PointXYZ : Type := mkPointXYZ { xyz_x : float; xyz_y : float; xyz_z : float }.

(** [euclidian_dst]: computed in [double], returned as [float]. *)
Definition euclidian_dst (p1 p2 : Point) : float :=
  let dx := dsub (pt_x p1) (pt_x p2) in
  let dy := dsub (pt_y p1) (pt_y p2) in
  let dz := dsub (pt_z p1) (pt_z p2) in
  float_of_double (dsqrt (dadd (dadd (dmul dx dx) (dmul dy dy)) (dmul dz dz))).

(** ** The Associator *)

(** The column bound of [findMinIDX] is [distMat.at(0).size()]: the length
    of row 0, whatever the other rows hold. It is only evaluated once row 0
    exists. *)
Definition row0_size (distMat : list (list float)) : nat :=
  match distMat with
  | [] => 0%nat
  | row0 :: _ => length row0
  end.

(** [findMinIDX]: row-major scan for the first strict minimum below
    [FLT_MAX]; [(-1, -1)] when there is none. *)
Definition findMinIDX (distMat : list (list float)) : option (Z * Z) :=
  res ← for_each (fun acc pp =>
           row ← distMat !! pp;
           for_each (fun '(minEl, minIndex) c =>
               el ← row !! c;
               if fltb el minEl
               then Some (el, (Z.of_nat pp, Z.of_nat c))
               else Some (minEl, minIndex))
             (upto (row0_size distMat)) acc)
         (upto (length distMat)) (FLT_MAX, (-1, -1));
  Some (snd res).

(** The matrix of distances: one row per predicted point, one column per
    detected centre. *)
Definition dist_matrix (pred cCentres : list Point) : list (list float) :=
  (fun pp => (fun centre => euclidian_dst pp centre) <$> cCentres) <$> pred.

(** The loop [for (r = 0; r < distMatrix.size(); r++) distMatrix[r][col] = FLT_MAX]. *)
Definition erase_column (col : Z) (distMatrix : list (list float)) :
    option (list (list float)) :=
  for_each (fun dm r =>
      row ← dm !! r;
      row' ← vec_set row col FLT_MAX;
      Some (<[r := row']> dm))
    (upto (length distMatrix)) distMatrix.

(** One iteration of the matching loop of [match_objID]. *)
Definition match_step (st : list Z * list bool * list (list float)) :
    option (list Z * list bool * list (list float)) :=
  let '(vec, used, distMatrix) := st in
  minIdx ← findMinIDX distMatrix;
  '(vec, used) ←
    (if negb (fst minIdx =? -1)
     then vec' ← vec_set vec (fst minIdx) (snd minIdx);
          used' ← vec_set used (snd minIdx) true;
          Some (vec', used')
     else Some (vec, used));
  distMatrix ← vec_set distMatrix (fst minIdx) (replicate 6 FLT_MAX);
  distMatrix ← erase_column (snd minIdx) distMatrix;
  Some (vec, used, distMatrix).

(** [match_objID]. [nfilters] is [k_filters_.size()], the bound of the
    matching loop; [used] is the caller's array, updated in place. *)
Definition match_objID (nfilters : nat) (pred cCentres : list Point) (used : list bool) :
    option (list Z * list bool) :=
  let vec := replicate (length pred) (-1) in
  res ← for_each (fun st (_ : nat) => match_step st) (upto nfilters)
          (vec, used, dist_matrix pred cCentres);
  Some (fst res).

(** ** Matrices *)

(** The arithmetic a matrix product needs. The tracker uses it at [float];
    stating it once for any carrier lets the transition matrix be read in
    exact arithmetic as well. *)
Class Arith (A : Type) : Type := {
  a_zero : A;
  a_one : A;
  a_add : A -> A -> A;
  a_mul : A -> A -> A
}.

Global Instance float_arith : Arith float :=
  {| a_zero := fzero; a_one := float_of_Z 1; a_add := fadd; a_mul := fmul |}.

(** The identities of exact arithmetic that reading a matrix product
    requires. *)
Class ArithLaws (A : Type) `{Arith A} : Prop := {
  a_add_0_l : forall x : A, a_add a_zero x = x;
  a_add_0_r : forall x : A, a_add x a_zero = x;
  a_mul_0_l : forall x : A, a_mul a_zero x = a_zero;
  a_mul_1_l : forall x : A, a_mul a_one x = x
}.

(** The rationals, an exact arithmetic. *)
Global Instance Qc_arith : Arith Qc :=
  {| a_zero := 0%Qc; a_one := 1%Qc; a_add := Qcplus; a_mul := Qcmult |}.

Section Matrices.
Context {A : Type} `{Arith A}.

Definition dot (row v : list A) : A :=
  foldl a_add a_zero (zip_with a_mul row v).

Definition mat_vec (M : list (list A)) (v : list A) : list A :=
  (fun row => dot row v) <$> M.

(** [cv::setIdentity(m, s)] on an [r] x [c] matrix. *)
Definition scaled_identity (r c : nat) (s : A) : list (list A) :=
  (fun i => (fun j => if (i =? j)%nat then s else a_zero) <$> upto c) <$> upto r.

Definition zeros (r c : nat) : list (list A) :=
  replicate r (replicate c a_zero).

(** The matrix streamed into [transitionMatrix] by [_init_KFilters]
    ([cv::Mat_<float>(4, 4) << dx, 0, 1, 0, 0, dy, 0, 1, 0, 0, dvx, 0, 0, 0, 0, dvy]);
    the integer literals are read in the carrier. *)
Definition transition (dx dy dvx dvy : A) : list (list A) :=
  [ [dx;     a_zero; a_one;  a_zero];
    [a_zero; dy;     a_zero; a_one ];
    [a_zero; a_zero; dvx;    a_zero];
    [a_zero; a_zero; a_zero; dvy   ] ].
End Matrices.

(** ** The Kalman filter object *)

(** [cv::KalmanFilter] with [CV_32F] matrices; the state vectors are the
    4 x 1 columns [statePre] and [statePost]. *)
Record KalmanFilter : Type := mkKalmanFilter {
  statePre : list float;
  statePost : list float;
  transitionMatrix : list (list float);
  measurementMatrix : list (list float);
  processNoiseCov : list (list float);
  measurementNoiseCov : list (list float);
  errorCovPre : list (list float);
  errorCovPost : list (list float);
  gain : list (list float)
}.

Definition set_statePre (s : list float) (f : KalmanFilter) : KalmanFilter :=
  mkKalmanFilter s (statePost f) (transitionMatrix f) (measurementMatrix f)
    (processNoiseCov f) (measurementNoiseCov f) (errorCovPre f) (errorCovPost f) (gain f).

(** What [cv::KalmanFilter(stateDim, measDim)] allocates (OpenCV's [init]):
    zero states and covariances, identity transition and noise, zero
    measurement matrix. *)
Definition KalmanFilter_new (stateDim measDim : nat) : KalmanFilter :=
  {| statePre := replicate stateDim fzero;
     statePost := replicate stateDim fzero;
     transitionMatrix := scaled_identity stateDim stateDim a_one;
     measurementMatrix := zeros measDim stateDim;
     processNoiseCov := scaled_identity stateDim stateDim a_one;
     measurementNoiseCov := scaled_identity measDim measDim a_one;
     errorCovPre := zeros stateDim stateDim;
     errorCovPost := zeros stateDim stateDim;
     gain := zeros stateDim measDim |}.

(** The filter that one iteration of [_init_KFilters] pushes. *)
Definition init_filter : KalmanFilter :=
  let stateDim := 4%nat in
  let measDim := 2%nat in
  let dx := float_of_Z 1 in
  let dy := dx in
  let dvx := f0_01 in
  let dvy := dvx in
  let sigmaP := d0_01 in
  let sigmaQ := d0_1 in
  let filt := KalmanFilter_new stateDim measDim in
  {| statePre := statePre filt;
     statePost := statePost filt;
     transitionMatrix := transition dx dy dvx dvy;
     measurementMatrix := scaled_identity measDim stateDim a_one;
     processNoiseCov := scaled_identity stateDim stateDim (float_of_double sigmaP);
     measurementNoiseCov := scaled_identity measDim measDim (float_of_double sigmaQ);
     errorCovPre := errorCovPre filt;
     errorCovPost := errorCovPost filt;
     gain := gain filt |}.

(** [_init_KFilters(cnt)]: [cnt] filters pushed at the back of [k_filters_]. *)
Definition _init_KFilters (cnt : nat) (k_filters_ : list KalmanFilter) : list KalmanFilter :=
  foldl (fun fs (_ : nat) => fs ++ [init_filter]) k_filters_ (upto cnt).

(** The four writes [statePre.at<float>(0) = x; ... (1) = y; ... (2) = 0;
    ... (3) = 0] on one filter. *)
Definition seed_statePre (x y : float) (f : KalmanFilter) : option KalmanFilter :=
  s ← vec_set (statePre f) 0 x;
  s ← vec_set s 1 y;
  s ← vec_set s 2 (float_of_Z 0);
  s ← vec_set s 3 (float_of_Z 0);
  Some (set_statePre s f).

(** ** The tracker *)

(** [filter_prune_interval]. *)
Definition filter_prune_interval : Z := 20.

(** The members of [ClusterTracker] that tracking reads or writes.
    [kf_prune_ctr_] is a [size_t]: a 64-bit counter. *)
Record ClusterTracker : Type := mkClusterTracker {
  objID : list Z;
  k_filters_ : list KalmanFilter;
  kf_prune_ctr_ : Z;
  visualize_ : bool;
  first_frame_ : bool
}.

(** The object after construction. *)
Definition ClusterTracker_new (visualize : bool) : ClusterTracker :=
  {| objID := []; k_filters_ := []; kf_prune_ctr_ := 0;
     visualize_ := visualize; first_frame_ := true |}.

Definition size_t_incr (n : Z) : Z := (n + 1) mod 2 ^ 64.

(** The points read from [ccs.data], three values at a time; a trailing
    group of one or two values makes the iterator run past [end()]. *)
Fixpoint centres_of_data (data : list float) : option (list Point) :=
  match data with
  | [] => Some []
  | a :: b :: c :: rest =>
      cs ← centres_of_data rest;
      Some (mkPoint (double_of_float a) (double_of_float b) (double_of_float c) :: cs)
  | _ => None
  end.

(** The creation loop of [KFTrack] (the body of [if (objID.size() < cCentres.size())]
    after [_init_KFilters(diff)]). *)
Definition seed_new_filters (diff : nat) (cCentres : list Point) (cluster_used : list bool)
    (k_filters_ : list KalmanFilter) : option (list KalmanFilter) :=
  res ← for_each (fun '(fs, skipped) i =>
           u ← cluster_used !! i;
           if negb u
           then c ← cCentres !! i;
                f ← fs !! (i + diff - skipped)%nat;
                f' ← seed_statePre (float_of_double (pt_x c)) (float_of_double (pt_y c)) f;
                Some (<[(i + diff - skipped)%nat := f']> fs, skipped)
           else Some (fs, S skipped))
         (upto (length cCentres)) (k_filters_, 0%nat);
  Some (fst res).

(** The deletion loop of [KFTrack]. The iterator [it] splits [objID] into
    the entries already kept and the entries [rest] still to visit; [i]
    counts the entries visited and [deleted] the ones erased. *)
Fixpoint prune_loop (rest kept : list Z) (k_filters_ : list KalmanFilter) (i deleted : nat) :
    option (list Z * list KalmanFilter) :=
  match rest with
  | [] => Some (kept, k_filters_)
  | id :: rest' =>
      if id =? -1
      then fs ← vec_erase k_filters_ (i - deleted)%nat;
           prune_loop rest' kept fs (S i) (S deleted)
      else prune_loop rest' (kept ++ [id]) k_filters_ (S i) deleted
  end.

(** The reconciliation of [KFTrack]: the [if] / [else if] after the call of
    [match_objID]. [objID] is the fresh assignment. *)
Definition reconcile (cCentres : list Point) (cluster_used : list bool) (st : ClusterTracker) :
    option ClusterTracker :=
  let n := length (objID st) in
  let m := length cCentres in
  if (n <? m)%nat
  then
    let diff := (m - n)%nat in
    fs ← seed_new_filters diff cCentres cluster_used (_init_KFilters diff (k_filters_ st));
    Some (mkClusterTracker (objID st) fs (kf_prune_ctr_ st) (visualize_ st) (first_frame_ st))
  else if (m <? n)%nat
  then
    (* [kf_prune_ctr_++ > filter_prune_interval]: the value before the
       increment is compared, the incremented value is stored *)
    let ctr := kf_prune_ctr_ st in
    let st := mkClusterTracker (objID st) (k_filters_ st) (size_t_incr ctr)
                (visualize_ st) (first_frame_ st) in
    if filter_prune_interval <? ctr
    then '(ids, fs) ← prune_loop (objID st) [] (k_filters_ st) 0 0;
         Some (mkClusterTracker ids fs 0 (visualize_ st) (first_frame_ st))
    else Some st
  else Some st.

(** What [fit_markers] reads of its arguments: [pts[i]] for every [i] below
    [IDs.size()]. The markers themselves belong to the presentation. *)
Definition fit_markers (pts : list Point) (IDs : list Z) : option unit :=
  for_each (fun _ i => _ ← pts !! i; Some tt) (upto (length IDs)) tt.

(** The guard of the correction: [!(meas[0] == 0.0f || meas[1] == 0.0f)]. *)
Definition measurement_accepted (meas0 meas1 : float) : bool :=
  negb (feqb meas0 fzero || feqb meas1 fzero).

(** The point [pt] that the prediction loop of [KFTrack] reads from the
    matrix [p] returned by [predict()]: [p.at<float>(0)], [(1)] and [(2)]. *)
Definition predicted_point (p : list float) : option Point :=
  x ← p !! 0%nat;
  y ← p !! 1%nat;
  z ← p !! 2%nat;
  Some (mkPoint (double_of_float x) (double_of_float y) (double_of_float z)).

Section Tracker.
(** [cv::KalmanFilter::predict()] and [cv::KalmanFilter::correct(m)]
    belong to OpenCV: the filter after the call, and for [predict] the
    matrix it returns. *)
Variable cv_predict : KalmanFilter -> KalmanFilter * list float.
Variable cv_correct : KalmanFilter -> list float -> KalmanFilter.

(** The prediction loop of [KFTrack]. *)
Definition predict_all (k_filters_ : list KalmanFilter) :
    option (list KalmanFilter * list Point) :=
  for_each (fun '(fs, predicted_points) f =>
      let '(f', p) := cv_predict f in
      pt ← predicted_point p;
      Some (fs ++ [f'], predicted_points ++ [pt]))
    k_filters_ ([], []).

(** The correction loop of [KFTrack]. *)
Definition correct_all (objCopy : list Z) (cCentres : list Point)
    (k_filters_ : list KalmanFilter) : option (list KalmanFilter) :=
  for_each (fun fs i =>
      id ← objCopy !! i;
      c ← vec_at cCentres id;
      let meas0 := float_of_double (pt_x c) in
      let meas1 := float_of_double (pt_y c) in
      if measurement_accepted meas0 meas1
      then f ← fs !! i; Some (<[i := cv_correct f [meas0; meas1]]> fs)
      else Some fs)
    (upto (length objCopy)) k_filters_.

(** [KFTrack]. [uninit i] is what the array [cluster_used] holds at index
    [i] when it is declared: the loop [for (auto b : cluster_used) b = false]
    assigns to a copy of each element, so the array keeps those values. *)
Definition KFTrack (ccs_data : list float) (uninit : nat -> bool) (st : ClusterTracker) :
    option ClusterTracker :=
  '(fs, predicted_points) ← predict_all (k_filters_ st);
  cCentres ← centres_of_data ccs_data;
  let cluster_used := uninit <$> upto (length cCentres) in
  '(ids, cluster_used) ←
    match_objID (length (k_filters_ st)) predicted_points cCentres cluster_used;
  st1 ← reconcile cCentres cluster_used
          (mkClusterTracker ids fs (kf_prune_ctr_ st) (visualize_ st) (first_frame_ st));
  let objCopy := objID st1 in
  _ ← (if visualize_ st1 then fit_markers cCentres objCopy else Some tt);
  fs' ← correct_all objCopy cCentres (k_filters_ st1);
  Some (mkClusterTracker (objID st1) fs' (kf_prune_ctr_ st1) (visualize_ st1) (first_frame_ st1)).

(** The centre of one extracted cluster. *)
Definition cluster_centre (cluster : list PointXYZ) : PointXYZ :=
  let x := foldl (fun acc p => fadd acc (xyz_x p)) fzero cluster in
  let y := foldl (fun acc p => fadd acc (xyz_y p)) fzero cluster in
  let size := float_of_Z (Z.of_nat (length cluster)) in
  mkPointXYZ (fdiv x size) (fdiv y size) fzero.

(** The first-frame loop of [cloudCallback]. *)
Definition seed_first_frame (cluster_centres : list PointXYZ)
    (k_filters_ : list KalmanFilter) : option (list KalmanFilter) :=
  for_each (fun fs i =>
      c ← cluster_centres !! i;
      let pt := mkPoint (double_of_float (xyz_x c)) (double_of_float (xyz_y c)) dzero in
      f ← fs !! i;
      f' ← seed_statePre (float_of_double (pt_x pt)) (float_of_double (pt_y pt)) f;
      Some (<[i := f']> fs))
    (upto (length cluster_centres)) k_filters_.

(** The message [cc] handed to [KFTrack]. *)
Definition centres_data (cluster_centres : list PointXYZ) : list float :=
  c ← cluster_centres; [xyz_x c; xyz_y c; xyz_z c].

(** [cloudCallback], from the extracted clusters on. The clusters are
    what [pcl::EuclideanClusterExtraction] returns for the message. *)
Definition cloudCallback (clusters : list (list PointXYZ)) (uninit : nat -> bool)
    (st : ClusterTracker) : option ClusterTracker :=
  let cluster_centres := cluster_centre <$> clusters in
  if first_frame_ st
  then
    fs ← seed_first_frame cluster_centres
           (_init_KFilters (length clusters) (k_filters_ st));
    Some (mkClusterTracker (objID st) fs (kf_prune_ctr_ st) (visualize_ st) false)
  else KFTrack (centres_data cluster_centres) uninit st.
End Tracker.

(** ** A model of the OpenCV filter

    The two OpenCV calls, written from the Kalman equations that
    [cv::KalmanFilter] implements, in [float] arithmetic. The 2 x 2 system
    of the gain is solved in closed form. The tracker above does not
    depend on this module; it serves to run the tracker on concrete
    frames. *)
Module OpenCV.

Definition col (M : list (list float)) (j : nat) : list float :=
  (fun row => default fzero (row !! j)) <$> M.

Definition transpose (M : list (list float)) : list (list float) :=
  col M <$> upto (row0_size M).

Definition mat_mul (M N : list (list float)) : list (list float) :=
  (fun row => (fun c => dot row c) <$> transpose N) <$> M.

Definition mat_zip (op : float -> float -> float) (M N : list (list float)) :
    list (list float) :=
  zip_with (zip_with op) M N.

Definition entry (M : list (list float)) (i j : nat) : float :=
  default fzero (M !! i ≫= fun row => row !! j).

Definition inverse2 (M : list (list float)) : list (list float) :=
  let a := entry M 0 0 in
  let b := entry M 0 1 in
  let c := entry M 1 0 in
  let d := entry M 1 1 in
  let det := fsub (fmul a d) (fmul b c) in
  [ [fdiv d det; fdiv (fsub fzero b) det];
    [fdiv (fsub fzero c) det; fdiv a det] ].

(** [predict]: [statePre = A * statePost], [errorCovPre = A * P * A^T + Q],
    both copied to the posterior; the call returns [statePre]. *)
Definition predict (f : KalmanFilter) : KalmanFilter * list float :=
  let A := transitionMatrix f in
  let pre := mat_vec A (statePost f) in
  let P := mat_zip fadd (mat_mul (mat_mul A (errorCovPost f)) (transpose A))
             (processNoiseCov f) in
  (mkKalmanFilter pre pre A (measurementMatrix f) (processNoiseCov f)
     (measurementNoiseCov f) P P (gain f),
   pre).

(** [correct]: gain [K = P H^T (H P H^T + R)^-1],
    [statePost = statePre + K (z - H statePre)], [errorCovPost = P - K H P]. *)
Definition correct (f : KalmanFilter) (z : list float) : KalmanFilter :=
  let Hm := measurementMatrix f in
  let temp2 := mat_mul Hm (errorCovPre f) in
  let temp3 := mat_zip fadd (mat_mul temp2 (transpose Hm)) (measurementNoiseCov f) in
  let temp4 := mat_mul (inverse2 temp3) temp2 in
  let K := transpose temp4 in
  let temp5 := zip_with fsub z (mat_vec Hm (statePre f)) in
  let post := zip_with fadd (statePre f) (mat_vec K temp5) in
  mkKalmanFilter (statePre f) post (transitionMatrix f) Hm (processNoiseCov f)
    (measurementNoiseCov f) (errorCovPre f)
    (mat_zip fsub (errorCovPre f) (mat_mul K temp2)) K.

(** The tracker run on a sequence of frames, each given by its
    extracted clusters, with [cluster_used] holding [false] wherever it
    is read before being written. *)
Definition run (frames : list (list (list PointXYZ))) (st : ClusterTracker) :
    option ClusterTracker :=
  for_each (fun st clusters => cloudCallback predict correct clusters (fun _ => false) st)
    frames st.

(** A cluster of one point with integer coordinates. *)
Definition single (x y : Z) : list PointXYZ :=
  [mkPointXYZ (float_of_Z x) (float_of_Z y) fzero].

End OpenCV.

(** ** Locking

    The synchronisation of [KFTrack]: the order in which one call takes
    and releases the mutexes of the tracker around its phases, and the
    interleavings that this order allows to several calls. *)

Module Locking.

(** The mutexes of [ClusterTracker]. [filter_mutex_] is a
    [boost::recursive_mutex], the other two are [boost::mutex]. *)
Inductive mutex : Type := mutex_ | filter_mutex_ | obj_mutex_.

Global Instance mutex_eq_dec : EqDecision mutex.
Proof. solve_decision. Defined.

Definition recursive (m : mutex) : bool :=
  match m with filter_mutex_ => true | _ => false end.

(** The phases of one call. *)
Inductive phase : Type :=
  | Predict     (* the loop over [k_filters_] calling [predict()] *)
  | Associate   (* [objID = match_objID(...)] *)
  | Allocate    (* the pushes of [_init_KFilters] *)
  | Seed        (* the writes of [statePre] of the creation loop *)
  | Prune       (* the deletion loop and the reset of [kf_prune_ctr_] *)
  | Emit        (* markers and the [obj_id] message, from [objCopy] *)
  | Correct.    (* the loop calling [correct()] *)

Global Instance phase_eq_dec : EqDecision phase.
Proof. solve_decision. Defined.

Inductive event : Type :=
  | Lock (m : mutex)
  | Unlock (m : mutex)
  | Run (p : phase).

(** Which arm of the reconciliation a call takes. *)
Inductive branch : Type := Create | Delete | NoChange.

Definition reconcile_events (b : branch) : list event :=
  match b with
  | Create =>
      [ Lock filter_mutex_;       (* [lock] of the [if] block *)
        Lock filter_mutex_;       (* [lock] of [_init_KFilters] *)
        Run Allocate;
        Unlock filter_mutex_;     (* [_init_KFilters] returns *)
        Run Seed;
        Unlock filter_mutex_ ]    (* the [if] block ends *)
  | Delete =>
      [ Lock filter_mutex_; Run Prune; Unlock filter_mutex_ ]
  | NoChange => []
  end.

(** The events of one call of [KFTrack], in program order. The last one is
    the destructor of [obj_lock], which still owns [obj_mutex_] in its own
    books after the direct [obj_mutex_.unlock()]. *)
Definition KFTrack_events (b : branch) : list event :=
  [ Run Predict;
    Lock obj_mutex_;              (* [obj_lock] *)
    Run Associate ] ++
  reconcile_events b ++
  [ Unlock obj_mutex_;            (* [obj_mutex_.unlock()] *)
    Run Emit;
    Lock filter_mutex_;           (* [lock] before the correction loop *)
    Run Correct;
    Unlock filter_mutex_;         (* destructor of [lock] *)
    Unlock obj_mutex_ ].          (* destructor of [obj_lock] *)

(** The phases of a sequence of events, in order. *)
Definition phases_of (events : list event) : list phase :=
  e ← events; match e with Run p => [p] | _ => [] end.

(** The owner of each mutex, with the depth of a recursive hold. *)
Definition locks : Type := mutex -> option (nat * nat).

Definition no_locks : locks := fun _ => None.

Definition set_lock (m : mutex) (o : option (nat * nat)) (l : locks) : locks :=
  fun m' => if decide (m' = m) then o else l m'.

(** The mutexes that thread [t] holds. *)
Definition held_by (t : nat) (l : locks) : list mutex :=
  filter (fun m => fst <$> l m = Some t) [mutex_; filter_mutex_; obj_mutex_].

(** A machine state: the mutexes and what is left of each thread. *)
Record config : Type := mkConfig { cfg_locks : locks; cfg_threads : list (list event) }.

(** One event of thread [t], when it can take place: a thread waits for a
    mutex held by another thread, and releasing a mutex that the thread
    does not hold is outside the contract of the mutex. The label tells
    the phase that ran, with the mutexes the thread held. *)
Definition step (t : nat) (c : config) : option (config * option (nat * phase * list mutex)) :=
  match cfg_threads c !! t with
  | Some (e :: rest) =>
      let threads := <[t := rest]> (cfg_threads c) in
      match e with
      | Run p => Some (mkConfig (cfg_locks c) threads, Some (t, p, held_by t (cfg_locks c)))
      | Lock m =>
          match cfg_locks c m with
          | None => Some (mkConfig (set_lock m (Some (t, 1%nat)) (cfg_locks c)) threads, None)
          | Some (t', depth) =>
              if (t' =? t)%nat && recursive m
              then Some (mkConfig (set_lock m (Some (t, S depth)) (cfg_locks c)) threads, None)
              else None
          end
      | Unlock m =>
          match cfg_locks c m with
          | Some (t', S depth) =>
              if (t' =? t)%nat
              then Some (mkConfig
                           (set_lock m (match depth with
                                        | O => None
                                        | S _ => Some (t, depth)
                                        end) (cfg_locks c))
                           threads, None)
              else None
          | _ => None
          end
      end
  | _ => None
  end.

(** A schedule names the thread that moves at each step; the result is
    the sequence of phases that ran. *)
Fixpoint run_schedule (schedule : list nat) (c : config) :
    option (list (nat * phase * list mutex)) :=
  match schedule with
  | [] => Some []
  | t :: schedule' =>
      '(c', label) ← step t c;
      trace ← run_schedule schedule' c';
      Some (match label with Some l => l :: trace | None => trace end)
  end.

Definition start (threads : list (list event)) : config := mkConfig no_locks threads.

(** One thread alone, up to the destructor of [obj_lock]. *)
Definition alone (b : branch) : list nat :=
  replicate (length (KFTrack_events b) - 1) 0%nat.

(** Two calls: thread 0 predicts, thread 1 then runs its whole cycle,
    thread 0 resumes. *)
Definition overtaken (b0 b1 : branch) : list nat :=
  [0%nat] ++ replicate (length (KFTrack_events b1) - 1) 1%nat ++
  replicate (length (KFTrack_events b0) - 2) 0%nat.

(** The claim C9 in these terms: some mutex is held at every phase of a
    call. *)
Definition one_critical_section (trace : list (nat * phase * list mutex)) : Prop :=
  exists m, forall l, l ∈ trace -> m ∈ snd l.

End Locking.

(** ** Vocabulary of the properties *)

(** An entry of the distance matrix that [findMinIDX] can still select. *)
Definition live (v : float) : Prop := fltb v FLT_MAX = true.

(** The observation indices of an assignment: its entries other than the
    sentinel [-1]. *)
Definition assigned (vec : list Z) : list Z := filter (fun j => j <> -1) vec.

(** What the matching loop keeps true of its variables, [m] being the
    number of detected centres: the assigned observations are distinct and
    in range, and an entry that can still be selected lies in a column
    that is not assigned and in a row whose slot is not assigned. *)
Definition match_inv (m : nat) (st : list Z * list bool * list (list float)) : Prop :=
  let '(vec, _, distMatrix) := st in
  NoDup (assigned vec) /\
  (forall j, j ∈ assigned vec -> 0 <= j < Z.of_nat m) /\
  (forall r c row v, distMatrix !! r = Some row -> row !! c = Some v -> live v ->
     (c < m)%nat /\ (Z.of_nat c ∉ assigned vec) /\ (forall j, vec !! r = Some j -> j = -1)).

(** The slots of a frame that keep their filter when pruning runs: the
    pairs of an assignment entry and its filter whose entry is not the
    sentinel. *)
Definition matched_pairs (ids : list Z) (fs : list KalmanFilter) : list (Z * KalmanFilter) :=
  filter (fun p => fst p <> -1) (zip ids fs).

(** The tracker with another counter value. *)
Definition with_prune_ctr (ctr : Z) (st : ClusterTracker) : ClusterTracker :=
  mkClusterTracker (objID st) (k_filters_ st) ctr (visualize_ st) (first_frame_ st).

(** The tracker after pruning: the matched slots, and the counter back
    at zero. *)
Definition pruned (st : ClusterTracker) : ClusterTracker :=
  mkClusterTracker (fst <$> matched_pairs (objID st) (k_filters_ st))
    (snd <$> matched_pairs (objID st) (k_filters_ st)) 0 (visualize_ st) (first_frame_ st).

(** The state that a filter gets from a centre: its position, and zero
    velocity. The position goes through [geometry_msgs::Point], hence
    through [double]. *)
Definition seeded (c : PointXYZ) : KalmanFilter :=
  set_statePre
    [float_of_double (double_of_float (xyz_x c));
     float_of_double (double_of_float (xyz_y c));
     float_of_Z 0; float_of_Z 0]
    init_filter.

(** The distance of the claim C10 between a predicted state
    [(x, y, vx, _)] and a centre [(cx, cy)]: the square root of
    [dx^2 + dy^2 + vx^2], computed in [double] and returned as [float]. *)
Definition association_distance (x y vx cx cy : float) : float :=
  let dx := dsub (double_of_float x) (double_of_float cx) in
  let dy := dsub (double_of_float y) (double_of_float cy) in
  let v := double_of_float vx in
  float_of_double (dsqrt (dadd (dadd (dmul dx dx) (dmul dy dy)) (dmul v v))).

(** The distance between the two positions in the plane. *)
Definition planar_distance (x y cx cy : float) : float :=
  let dx := dsub (double_of_float x) (double_of_float cx) in
  let dy := dsub (double_of_float y) (double_of_float cy) in
  float_of_double (dsqrt (dadd (dmul dx dx) (dmul dy dy))).

(** The degenerate measurement as the specification words it: the
    position (0,0), both coordinates zero. *)
Definition sentinel_position (meas0 meas1 : float) : bool :=
  feqb meas0 fzero && feqb meas1 fzero.

(** ** Frames used as examples *)

Module Examples.
Import OpenCV.

(** A point with integer coordinates. *)
Definition point (x y z : Z) : Point :=
  mkPoint (double_of_Z x) (double_of_Z y) (double_of_Z z).

(** A state vector with integer components. *)
Definition state (x y vx vy : Z) : list float :=
  [float_of_Z x; float_of_Z y; float_of_Z vx; float_of_Z vy].

(** The message [cc] for centres with integer coordinates and [z = 0]. *)
Definition message (centres : list (Z * Z)) : list float :=
  c ← centres; [float_of_Z (fst c); float_of_Z (snd c); fzero].

(** The tracker after a first frame with one cluster at [(1, 1)]. *)
Definition one_track : ClusterTracker :=
  {| objID := [];
     k_filters_ := [set_statePre (state 1 1 0 0) init_filter];
     kf_prune_ctr_ := 0;
     visualize_ := true;
     first_frame_ := false |}.

(** Two filters told apart by their state. *)
Definition track_A : KalmanFilter := set_statePre (state 1 1 0 0) init_filter.
Definition track_B : KalmanFilter := set_statePre (state 5 5 0 0) init_filter.

(** The reconciliation of one frame, given the assignment that the
    Associator produced for it. *)
Definition reconcile_frame (st : ClusterTracker) (frame : list Z * list Point) :
    option ClusterTracker :=
  reconcile (snd frame) (replicate (length (snd frame)) true)
    (mkClusterTracker (fst frame) (k_filters_ st) (kf_prune_ctr_ st)
       (visualize_ st) (first_frame_ st)).

(** Twenty-two frames with one centre for two tracks: track B is
    unmatched on the first, matched on the next twenty, unmatched on the
    last. *)
Definition regained_match_frames : list (list Z * list Point) :=
  ([0; -1], [point 1 1 0]) :: replicate 20 ([-1; 0], [point 5 5 0]) ++
  [([0; -1], [point 1 1 0])].

(** The filter of [one_track] after a prediction. *)
Definition predicted_track : KalmanFilter :=
  fst (predict (set_statePre (state 1 1 0 0) init_filter)).
End Examples.

(** ** The scan of [findMinIDX] *)

(** Position [(r, c)] is visited before position [(r', c')] by the scan of
    [findMinIDX]. *)
Definition scanned_before (r c r' c' : nat) : Prop :=
  (r < r')%nat \/ (r = r' /\ (c < c')%nat).

(** The running minimum of [findMinIDX] when the scan is about to visit
    position [(k, c)]: no visited entry is below it; and either nothing was
    selected, or it is the entry at the selected position, which is below
    [FLT_MAX], and every entry visited before that position is neither
    below nor equal to it. *)
Definition scan_inv (D : list (list float)) (k c : nat) (acc : float * (Z * Z)) : Prop :=
  (forall r' c' row w,
     D !! r' = Some row -> row !! c' = Some w -> (c' < row0_size D)%nat ->
     scanned_before r' c' k c -> fltb w (fst acc) = false) /\
  ((fst acc = FLT_MAX /\ snd acc = (-1, -1)) \/
   exists r0 c0 row0,
     snd acc = (Z.of_nat r0, Z.of_nat c0) /\
     D !! r0 = Some row0 /\ row0 !! c0 = Some (fst acc) /\
     (c0 < row0_size D)%nat /\ live (fst acc) /\ scanned_before r0 c0 k c /\
     forall r' c' row w,
       D !! r' = Some row -> row !! c' = Some w -> (c' < row0_size D)%nat ->
       scanned_before r' c' r0 c0 -> fltb w (fst acc) = false /\ feqb w (fst acc) = false).

(** ** Values of the distance *)

(** A value that is neither an infinity nor NaN. *)
Definition is_finite (v : spec_float) : bool :=
  match v with
  | S754_zero _ | S754_finite _ _ _ => true
  | _ => false
  end.

Definition finite_point (p : Point) : bool :=
  is_finite (pt_x p) && is_finite (pt_y p) && is_finite (pt_z p).

(** A value whose sign bit is clear, or NaN. *)
Definition sign_clear (v : spec_float) : Prop :=
  match v with
  | S754_zero s | S754_infinity s | S754_finite s _ _ => s = false
  | S754_nan => True
  end.

(** ** The flags of the matching *)

(** The flags of [cluster_used] after a matching: the flag of every
    assigned observation is set, the others hold what they held before. *)
Definition marked (vec : list Z) (used : list bool) : list bool :=
  imap (fun j b => b || bool_decide (Z.of_nat j ∈ assigned vec)) used.

(** ** Sequences of frames *)

Section Frames.
Variable cv_predict : KalmanFilter -> KalmanFilter * list float.
Variable cv_correct : KalmanFilter -> list float -> KalmanFilter.

(** The callbacks of successive messages. A frame is the list of clusters
    extracted from its message, with what the array [cluster_used] of its
    [KFTrack] call holds when it is declared. *)
Definition cloud_frames (frames : list (list (list PointXYZ) * (nat -> bool)))
    (st : ClusterTracker) : option ClusterTracker :=
  for_each (fun st frame => cloudCallback cv_predict cv_correct (fst frame) (snd frame) st)
    frames st.
End Frames.

(** ** The creation loop *)

(** The centres of a frame whose flag in [cluster_used] is clear, in the
    order of the frame. *)
Definition unmatched_centres (cCentres : list Point) (cluster_used : list bool) :
    list Point :=
  fst <$> filter (fun p => snd p = false) (zip cCentres cluster_used).

(** ** The cluster publishers *)

(** [sync_cluster_publishers_size]. A publisher of [cluster_pubs_] is
    represented by the number [k] of its topic [cluster_<k>]. What the call
    gets from outside is given: the value [r] of [rand()], and for each
    attempt to advertise, in order, whether it succeeds or throws
    [ros::Exception]. *)

(** [RAND_MAX] of glibc. *)
Definition RAND_MAX : Z := 2147483647.

(** The literal [0.9f]. *)
Definition f0_9 : float := Eval vm_compute in fdiv (float_of_Z 9) (float_of_Z 10).

(** [(float)rand() / RAND_MAX > 0.9f]. *)
Definition cleaning_due (r : Z) : bool :=
  fltb f0_9 (fdiv (float_of_Z r) (float_of_Z RAND_MAX)).

(** The loop [while (cluster_pubs_.size() > num_clusters)] that shuts the
    last publisher down and pops it; [fuel] bounds its iterations. *)
Fixpoint pop_surplus (fuel num_clusters : nat) (cluster_pubs_ : list nat) : list nat :=
  match fuel with
  | O => cluster_pubs_
  | S fuel' =>
      if (num_clusters <? length cluster_pubs_)%nat
      then pop_surplus fuel' num_clusters (removelast cluster_pubs_)
      else cluster_pubs_
  end.

(** The loop [while (num_clusters > cluster_pubs_.size())]: an attempt
    that succeeds pushes a publisher of the topic numbered by the current
    size, an attempt that throws changes nothing and the loop tries again.
    The loop has not ended when the given outcomes are used up. *)
Fixpoint advertise_missing (outcomes : list bool) (num_clusters : nat)
    (cluster_pubs_ : list nat) : option (list nat) :=
  if (length cluster_pubs_ <? num_clusters)%nat
  then match outcomes with
       | [] => None
       | true :: outcomes' =>
           advertise_missing outcomes' num_clusters (cluster_pubs_ ++ [length cluster_pubs_])
       | false :: outcomes' => advertise_missing outcomes' num_clusters cluster_pubs_
       end
  else Some cluster_pubs_.

Definition sync_cluster_publishers_size (r : Z) (outcomes : list bool) (num_clusters : nat)
    (cluster_pubs_ : list nat) : option (list nat) :=
  let cluster_pubs_ :=
    if cleaning_due r
    then pop_surplus (length cluster_pubs_) num_clusters cluster_pubs_
    else cluster_pubs_ in
  advertise_missing outcomes num_clusters cluster_pubs_.

(** ** The balance of locks *)

Module LockBalance.
Import Locking.

(** The configuration that a schedule leads to. *)
Fixpoint run_config (schedule : list nat) (c : config) : option config :=
  match schedule with
  | [] => Some c
  | t :: schedule' => '(c', _) ← step t c; run_config schedule' c'
  end.

(** By how many the releases of [m] in a sequence of events exceed the
    acquisitions of [m]. *)
Fixpoint surplus (m : mutex) (events : list event) : Z :=
  match events with
  | [] => 0
  | Lock m' :: rest => (if decide (m' = m) then -1 else 0) + surplus m rest
  | Unlock m' :: rest => (if decide (m' = m) then 1 else 0) + surplus m rest
  | Run _ :: rest => surplus m rest
  end.

(** How deep thread [t] holds [m]. *)
Definition depth_held (m : mutex) (t : nat) (l : locks) : Z :=
  match l m with
  | Some (t', depth) => if (t' =? t)%nat then Z.of_nat depth else 0
  | None => 0
  end.

End LockBalance.

(** ** Counting flags *)

(** The number of flags that are set. *)
Definition count_set (flags : list bool) : nat :=
  length (filter (fun b => b = true) flags).

(** ** Frames and distances of the claims on complete frames *)

(** The matrix of the distances [association_distance] between predicted
    states and cluster centres. *)
Definition association_matrix (states : list (list float)) (centres : list PointXYZ) :
    list (list float) :=
  (fun p =>
     (fun c => association_distance (default fzero (p !! 0%nat)) (default fzero (p !! 1%nat))
                 (default fzero (p !! 2%nat)) (xyz_x c) (xyz_y c)) <$> centres) <$> states.

Module Runs.

(** The tracker after a first frame with the clusters (1,1) and (5,5). *)
Definition two_tracks : ClusterTracker :=
  mkClusterTracker [] [Examples.track_A; Examples.track_B] 0 true false.

(** Three frames with one cluster each, moving along the diagonal. *)
Definition moving_cluster : list (list (list PointXYZ)) :=
  [[OpenCV.single 10 10]; [OpenCV.single 20 20]; [OpenCV.single 30 30]].

(** The tracker after these frames. *)
Definition moving_track : ClusterTracker :=
  default (ClusterTracker_new true) (OpenCV.run moving_cluster (ClusterTracker_new true)).

End Runs.

(** * Properties *)

(** ** Loops *)

(** A property that holds before a loop and is kept by every defined
    iteration holds when the loop ends. *)
Lemma for_each_invariant {S A} (P : S -> Prop) (body : S -> A -> option S) xs s s' :
  for_each body xs s = Some s' ->
  P s ->
  (forall s a s', a ∈ xs -> P s -> body s a = Some s' -> P s') ->
  P s'.
Proof.
  revert s. induction xs as [|a xs IH]; intros s Hrun Hs Hstep; simpl in Hrun.
  - by simplify_eq.
  - destruct (body s a) as [s1|] eqn:Hb; simplify_eq/=.
    apply (IH s1); [done| |].
    + eapply Hstep; [|done..]. left.
    + intros ?????. eapply Hstep; [|done..]. by right.
Qed.

(** The same for a counted loop, with the number of completed iterations. *)
Lemma for_each_counted {S} (P : nat -> S -> Prop) (body : S -> nat -> option S) n s s' :
  for_each body (upto n) s = Some s' ->
  P 0%nat s ->
  (forall k s s', (k < n)%nat -> P k s -> body s k = Some s' -> P (Datatypes.S k) s') ->
  P n s'.
Proof.
  unfold upto. intros Hrun H0 Hstep.
  assert (forall len start s, (start + len = n)%nat -> P start s ->
            for_each body (seq start len) s = Some s' -> P n s') as Hgen.
  { induction len as [|len IH]; intros start s1 Hn Hs Hr; simpl in Hr.
    - simplify_eq. by replace (start + 0)%nat with start in * by lia.
    - destruct (body s1 start) as [s2|] eqn:Hb; simplify_eq/=.
      apply (IH (Datatypes.S start) s2); [lia| |done].
      apply (Hstep start s1); [lia|done..]. }
  by apply (Hgen n 0%nat s).
Qed.

(** A counted loop whose iterations are all defined under the invariant
    runs to its end. *)
Lemma for_each_counted_total {S} (P : nat -> S -> Prop) (body : S -> nat -> option S) n s :
  P 0%nat s ->
  (forall k s, (k < n)%nat -> P k s -> exists s', body s k = Some s' /\ P (Datatypes.S k) s') ->
  exists s', for_each body (upto n) s = Some s' /\ P n s'.
Proof.
  unfold upto. intros H0 Hstep.
  assert (forall len start s, (start + len = n)%nat -> P start s ->
            exists s', for_each body (seq start len) s = Some s' /\ P n s') as Hgen.
  { induction len as [|len IH]; intros start s1 Hn Hs; simpl.
    - exists s1. split; [done|]. by replace n with start by lia.
    - destruct (Hstep start s1) as (s2 & Hb & Hs2); [lia|done|].
      rewrite Hb. simpl. apply IH; [lia|done]. }
  by apply (Hgen n 0%nat s).
Qed.

(** ** Comparison of floats *)

Lemma SFcompare_Lt_trans a b c :
  SFcompare a b = Some Lt -> SFcompare b c = Some Lt -> SFcompare a c = Some Lt.
Proof.
  destruct a as [sa|sa| |sa ma ea], b as [sb|sb| |sb mb eb], c as [sc|sc| |sc mc ec];
    cbn; try discriminate;
    repeat match goal with s : bool |- _ => destruct s end;
    cbn; try discriminate; try reflexivity.
  all: change (Pos.compare_cont Eq) with Pos.compare.
  all: destruct (Z.compare_spec ea eb), (Z.compare_spec eb ec), (Z.compare_spec ea ec);
       try discriminate; try reflexivity; try lia; subst.
  all: destruct (Pos.compare_spec ma mb), (Pos.compare_spec mb mc), (Pos.compare_spec ma mc);
       cbn; try discriminate; try reflexivity; try lia.
Qed.

Lemma fltb_trans a b c : fltb a b = true -> fltb b c = true -> fltb a c = true.
Proof.
  unfold fltb, SFltb.
  destruct (SFcompare a b) as [[]|] eqn:Hab; try discriminate.
  destruct (SFcompare b c) as [[]|] eqn:Hbc; try discriminate.
  intros _ _. by rewrite (SFcompare_Lt_trans a b c).
Qed.

Lemma FLT_MAX_not_live : live FLT_MAX -> False.
Proof. unfold live. vm_compute. discriminate. Qed.

(** ** Conversions between the two formats *)

Lemma iter_pos_iter {A} (f : A -> A) k x : SpecFloat.iter_pos f k x = Pos.iter f x k.
Proof.
  revert x. induction k as [k IH|k IH|]; intros x; simpl.
  - rewrite !IH. by rewrite !Pos.iter_swap.
  - by rewrite !IH.
  - done.
Qed.

Lemma digits2_pos_shift k m :
  Z.pos (digits2_pos (Pos.iter xO m k)) = Z.pos (digits2_pos m) + Z.pos k.
Proof.
  induction k as [|k IH] using Pos.peano_ind.
  - simpl. lia.
  - rewrite Pos.iter_succ. simpl. lia.
Qed.

Lemma shr_shift k m :
  Pos.iter shr_1 (Build_shr_record (Z.pos (Pos.iter xO m k)) false false) k =
  Build_shr_record (Z.pos m) false false.
Proof.
  revert m. induction k as [|k IH] using Pos.peano_ind; intros m.
  - done.
  - rewrite Pos.iter_succ_r. rewrite Pos.iter_succ. simpl.
    apply IH.
Qed.

(** A mantissa that already fits its exponent is rounded to itself. *)
Lemma binary_round_aux_fits prec emax s m e :
  fexp prec emax (Z.pos (digits2_pos m) + e) = e -> e <= emax - prec ->
  binary_round_aux prec emax s (Z.pos m) e loc_Exact = S754_finite s m e.
Proof.
  intros Hfexp He. unfold binary_round_aux, shr_fexp. cbn [Zdigits2 shr_record_of_loc].
  rewrite Hfexp, Z.sub_diag. cbn [shr shr_m loc_of_shr_record round_nearest_even Zdigits2].
  rewrite Hfexp, Z.sub_diag. cbn [shr shr_m].
  destruct (Z.leb_spec e (emax - prec)); [done|lia].
Qed.

Lemma bounded32_inv m e :
  bounded prec32 emax32 m e = true ->
  Z.pos (digits2_pos m) <= 24 /\ -149 <= e <= 104 /\
  fexp prec32 emax32 (Z.pos (digits2_pos m) + e) = e.
Proof.
  unfold bounded, canonical_mantissa, fexp, emin, prec32, emax32.
  intros H. apply andb_true_iff in H as [H1 H2].
  apply Z.eqb_eq in H1. apply Z.leb_le in H2. lia.
Qed.

(** A [float] converts to the [double] with the same value: the mantissa
    is shifted to 53 bits. *)
Lemma double_of_float_finite s m e :
  bounded prec32 emax32 m e = true ->
  let k := Z.to_pos (53 - Z.pos (digits2_pos m)) in
  double_of_float (S754_finite s m e) = S754_finite s (Pos.iter xO m k) (e - Z.pos k).
Proof.
  intros Hb k. apply bounded32_inv in Hb as (Hd & He & _).
  assert (Z.pos k = 53 - Z.pos (digits2_pos m)) as Hk by (unfold k; lia).
  unfold double_of_float, round_to.
  assert (binary_normalize prec64 emax64 (cond_Zopp s (Z.pos m)) e s =
          binary_round prec64 emax64 s m e) as -> by (by destruct s).
  unfold binary_round, shl_align.
  assert (fexp prec64 emax64 (Z.pos (digits2_pos m) + e) - e = Z.neg k) as ->.
  { unfold fexp, emin, prec64, emax64. lia. }
  assert (fexp prec64 emax64 (Z.pos (digits2_pos m) + e) = e - Z.pos k) as ->.
  { unfold fexp, emin, prec64, emax64. lia. }
  apply binary_round_aux_fits.
  - rewrite digits2_pos_shift. unfold fexp, emin, prec64, emax64. lia.
  - unfold prec64, emax64. lia.
Qed.

(** Converting a [float] to [double] and back gives the [float]. *)
Lemma float_of_double_of_float (x : float) :
  valid_binary prec32 emax32 x = true -> float_of_double (double_of_float x) = x.
Proof.
  destruct x as [s|s| |s m e]; try done. simpl. intros Hb.
  rewrite (double_of_float_finite s m e Hb).
  apply bounded32_inv in Hb as (Hd & He & Hfexp).
  set (k := Z.to_pos (53 - Z.pos (digits2_pos m))).
  assert (Z.pos k = 53 - Z.pos (digits2_pos m)) as Hk by (unfold k; lia).
  unfold float_of_double, round_to.
  assert (binary_normalize prec32 emax32 (cond_Zopp s (Z.pos (Pos.iter xO m k)))
            (e - Z.pos k) s =
          binary_round prec32 emax32 s (Pos.iter xO m k) (e - Z.pos k)) as ->
    by (by destruct s).
  unfold binary_round, shl_align.
  assert (fexp prec32 emax32 (Z.pos (digits2_pos (Pos.iter xO m k)) + (e - Z.pos k)) = e)
    as Hfexp'.
  { rewrite digits2_pos_shift. rewrite <- Hfexp at 2. f_equal. lia. }
  rewrite Hfexp'.
  replace (e - (e - Z.pos k)) with (Z.pos k) by lia.
  unfold binary_round_aux, shr_fexp. cbn [Zdigits2 shr_record_of_loc].
  rewrite Hfexp'. replace (e - (e - Z.pos k)) with (Z.pos k) by lia.
  cbn [shr]. rewrite iter_pos_iter, shr_shift.
  cbn [shr_m loc_of_shr_record round_nearest_even Zdigits2].
  replace (e - Z.pos k + Z.pos k) with e by lia.
  rewrite Hfexp, Z.sub_diag. cbn [shr shr_m].
  destruct (Z.leb_spec e (emax32 - prec32)); [done|]. unfold emax32, prec32 in *. lia.
Qed.

(** ** [findMinIDX] *)

(** Whatever [findMinIDX] returns is either the pair [(-1, -1)] or the
    position of an entry that is below [FLT_MAX]. *)
Lemma findMinIDX_spec D i j :
  findMinIDX D = Some (i, j) ->
  (i = -1 /\ j = -1) \/
  (exists r c row v, i = Z.of_nat r /\ j = Z.of_nat c /\
     D !! r = Some row /\ row !! c = Some v /\ live v).
Proof.
  unfold findMinIDX. intros Hrun.
  destruct (for_each _ _ _) as [[minEl idx]|] eqn:Hscan; simplify_eq/=.
  pose (P := fun acc : float * (Z * Z) =>
    (acc = (FLT_MAX, (-1, -1))) \/
    (exists r c row, snd acc = (Z.of_nat r, Z.of_nat c) /\
       D !! r = Some row /\ row !! c = Some (fst acc) /\ live (fst acc))).
  assert (P (minEl, (i, j))) as HP.
  { eapply (for_each_invariant P) in Hscan; [done|by left|].
    intros acc pp acc' _ Hacc Hrow.
    destruct (D !! pp) as [row|] eqn:Hpp; simplify_eq/=.
    eapply (for_each_invariant P) in Hrow; [done|done|].
    intros [mEl mIdx] c acc2 _ Hacc2 Hcol. simpl in Hcol.
    destruct (row !! c) as [el|] eqn:Hc; simplify_eq/=.
    destruct (fltb el mEl) eqn:Hlt; simplify_eq/=; [|done].
    right. exists pp, c, row. split_and!; try done. simpl.
    destruct Hacc2 as [?|(?&?&?&?&?&?&Hl)]; simplify_eq/=; [done|].
    by apply (fltb_trans el mEl). }
  destruct HP as [?|(r&c&row&?&?&?&?)]; simplify_eq/=; [by left|].
  right. by exists r, c, row, minEl.
Qed.

(** ** The matching loop *)

Lemma vec_set_Some {A} (v : list A) i a v' :
  vec_set v i a = Some v' ->
  0 <= i /\ (Z.to_nat i < length v)%nat /\ v' = <[Z.to_nat i := a]> v.
Proof.
  unfold vec_set. destruct (0 <=? i) eqn:H0; simpl; [|done].
  destruct (i <? Z.of_nat (length v)) eqn:H1; [|done].
  intros ?; simplify_eq. split_and!; [lia|lia|done].
Qed.

(** Erasing a column rewrites one entry of every row. *)
Lemma erase_column_spec col D D' :
  erase_column col D = Some D' ->
  forall r row', D' !! r = Some row' ->
    exists row, D !! r = Some row /\ row' = <[Z.to_nat col := FLT_MAX]> row.
Proof.
  unfold erase_column. intros Hrun.
  eapply (for_each_counted (fun k dm =>
            length dm = length D /\
            (forall r row', (r < k)%nat -> dm !! r = Some row' ->
               exists row, D !! r = Some row /\ row' = <[Z.to_nat col := FLT_MAX]> row) /\
            (forall r, (k <= r)%nat -> dm !! r = D !! r))) in Hrun.
  - destruct Hrun as (Hlen & Hlow & _). intros r row' Hr.
    apply (Hlow r row'); [|done]. apply lookup_lt_Some in Hr. lia.
  - split_and!; [done|lia|done].
  - intros k dm dm' Hk (Hlen & Hlow & Hhigh) Hbody.
    destruct (dm !! k) as [row|] eqn:Hrow; simplify_eq/=.
    destruct (vec_set row col FLT_MAX) as [row1|] eqn:Hset; simplify_eq/=.
    apply vec_set_Some in Hset as (_ & _ & ->).
    split_and!.
    + by rewrite length_insert.
    + intros r row' Hr Hlook. destruct (decide (r = k)) as [->|Hne].
      * rewrite list_lookup_insert_eq in Hlook by (by eapply lookup_lt_Some).
        simplify_eq. exists row. split; [|done]. rewrite <- Hhigh; done.
      * rewrite list_lookup_insert_ne in Hlook by done.
        apply Hlow; [lia|done].
    + intros r Hr. rewrite list_lookup_insert_ne by lia. apply Hhigh. lia.
Qed.

Lemma assigned_insert vec (i : nat) j :
  vec !! i = Some (-1) -> j <> -1 ->
  assigned (<[i := j]> vec) ≡ₚ j :: assigned vec.
Proof.
  intros Hi Hj. unfold assigned.
  rewrite insert_take_drop by (by eapply lookup_lt_Some).
  rewrite <- (take_drop_middle vec i (-1)) at 3 by done.
  rewrite !list.filter_app, !list.filter_cons.
  destruct (decide (j <> -1)); [|done].
  destruct (decide (-1 <> -1)); [done|].
  by rewrite Permutation_middle.
Qed.

(** One defined iteration keeps [match_inv] and assigns one more
    observation. *)
Lemma match_step_inv m st st' :
  match_inv m st -> match_step st = Some st' ->
  match_inv m st' /\
  length (assigned (fst (fst st'))) = S (length (assigned (fst (fst st)))) /\
  length (fst (fst st')) = length (fst (fst st)).
Proof.
  destruct st as [[vec used] D], st' as [[vec' used'] D'].
  intros (Hnd & Hrange & Hlive) Hstep. unfold match_step in Hstep.
  apply bind_Some in Hstep as ([i j] & Hmin & Hstep). simpl in Hstep.
  apply bind_Some in Hstep as ([vec1 used1] & Hassign & Hstep).
  apply bind_Some in Hstep as (D1 & HD1 & Hstep).
  apply bind_Some in Hstep as (D2 & HD2 & Hstep). simplify_eq.
  destruct (negb (i =? -1)) eqn:Hi.
  2:{ (* the pair (-1, -1): the row write is out of range *)
      apply negb_false_iff, Z.eqb_eq in Hi as ->. by unfold vec_set in HD1. }
  apply findMinIDX_spec in Hmin as [[-> _]|(r & c & row & v & -> & -> & Hr & Hc & Hv)];
    [done|].
  apply bind_Some in Hassign as (vec2 & Hvec & Hassign).
  apply bind_Some in Hassign as (used2 & Hused & Hassign). simplify_eq.
  apply vec_set_Some in Hvec as (_ & Hrlt & ->).
  apply vec_set_Some in HD1 as (_ & _ & ->).
  rewrite Nat2Z.id in *.
  destruct (Hlive r c row v Hr Hc Hv) as (Hcm & Hfresh & Hslot).
  destruct (lookup_lt_is_Some_2 vec r Hrlt) as [j0 Hj0].
  pose proof (Hslot _ Hj0) as ->.
  pose proof (assigned_insert vec r (Z.of_nat c) Hj0 ltac:(lia)) as Hperm.
  unfold match_inv; simpl. split_and!.
  - rewrite Hperm. by apply NoDup_cons_2.
  - intros j. rewrite Hperm, elem_of_cons. intros [->|?]; [lia|by apply Hrange].
  - intros r' c' row' v' Hr' Hc' Hv'.
    destruct (erase_column_spec _ _ _ HD2 _ _ Hr') as (row1 & Hrow1 & ->).
    rewrite Nat2Z.id in Hc'.
    apply list_lookup_insert_Some in Hc' as [(<- & <- & _)|[Hcc Hc']];
      [by apply FLT_MAX_not_live in Hv'|].
    apply list_lookup_insert_Some in Hrow1 as [(<- & <- & _)|[Hrr Hrow1]].
    { change (replicate 6 FLT_MAX !! c' = Some v') in Hc'.
      apply lookup_replicate in Hc' as [-> _]. by apply FLT_MAX_not_live in Hv'. }
    destruct (Hlive r' c' row1 v' Hrow1 Hc' Hv') as (? & ? & ?).
    split_and!; [done| |].
    + rewrite Hperm, not_elem_of_cons. split; [lia|done].
    + intros j'. rewrite list_lookup_insert_ne by done. auto.
  - by rewrite Hperm.
  - by rewrite length_insert.
Qed.

Lemma assigned_replicate n : assigned (replicate n (-1)) = [].
Proof.
  unfold assigned. induction n as [|n IH]; simpl; [done|].
  rewrite list.filter_cons. by destruct (decide (-1 <> -1)).
Qed.

Lemma match_inv_init pred cCentres used :
  match_inv (length cCentres) (replicate (length pred) (-1), used, dist_matrix pred cCentres).
Proof.
  unfold match_inv. rewrite assigned_replicate. split_and!.
  - constructor.
  - intros j Hj. by apply elem_of_nil in Hj.
  - intros r c row v Hr Hc _. unfold dist_matrix in Hr.
    apply list_lookup_fmap_Some in Hr as (pp & -> & _).
    apply lookup_lt_Some in Hc. rewrite length_fmap in Hc.
    split_and!; [done|apply not_elem_of_nil|].
    intros j Hj. by apply lookup_replicate in Hj as [-> _].
Qed.

(** The loop of [match_objID], when all of its [n] iterations are defined,
    ends with [n] assigned observations, all distinct and in range. *)
Lemma match_loop_inv n pred cCentres used st :
  for_each (fun st (_ : nat) => match_step st) (upto n)
    (replicate (length pred) (-1), used, dist_matrix pred cCentres) = Some st ->
  match_inv (length cCentres) st /\
  length (assigned (fst (fst st))) = n /\
  length (fst (fst st)) = length pred.
Proof.
  intros Hrun.
  eapply (for_each_counted (fun k st =>
            match_inv (length cCentres) st /\
            length (assigned (fst (fst st))) = k /\
            length (fst (fst st)) = length pred)) in Hrun; [done| |].
  - split_and!; [apply match_inv_init| |]; simpl.
    + by rewrite assigned_replicate.
    + by rewrite length_replicate.
  - intros k s s' _ (Hinv & Hk & Hlen) Hstep.
    destruct (match_step_inv _ _ _ Hinv Hstep) as (? & ? & ?).
    split_and!; [done|lia|congruence].
Qed.

(** Distinct values below a bound are at most as many as the bound. *)
Lemma NoDup_bounded_length (l : list Z) (m : nat) :
  NoDup l -> (forall j, j ∈ l -> 0 <= j < Z.of_nat m) -> (length l <= m)%nat.
Proof.
  intros Hnd Hb.
  assert (l ⊆+ seqZ 0 (Z.of_nat m)) as Hsub.
  { apply NoDup_submseteq; [done|]. intros j Hj. apply elem_of_seqZ. specialize (Hb j Hj). lia. }
  apply submseteq_length in Hsub. rewrite length_seqZ in Hsub. lia.
Qed.

(** In a list whose selected entries are distinct, a selected value has
    one position. *)
Lemma NoDup_assigned_lookup vec i i' j :
  NoDup (assigned vec) -> vec !! i = Some j -> vec !! i' = Some j -> j <> -1 -> i = i'.
Proof.
  unfold assigned. revert i i'. induction vec as [|a vec IH]; intros i i' Hnd Hi Hi' Hj; [done|].
  rewrite list.filter_cons in Hnd.
  assert (forall k, vec !! k = Some j -> j ∈ filter (fun j => j <> -1) vec) as Hin.
  { intros k Hk. apply list_elem_of_filter. split; [done|]. by eapply list_elem_of_lookup_2. }
  destruct i as [|i], i' as [|i']; simplify_eq/=; [done| | |].
  - destruct (decide (j <> -1)); [|done]. apply list.NoDup_cons in Hnd as [Hnot _].
    destruct Hnot. by eapply Hin.
  - destruct (decide (j <> -1)); [|done]. apply list.NoDup_cons in Hnd as [Hnot _].
    destruct Hnot. by eapply Hin.
  - f_equal. apply IH; [|done..]. destruct (decide (a <> -1)); [|done].
    by apply list.NoDup_cons in Hnd as [_ ?].
Qed.

(** What a returned assignment looks like: one entry per predicted point,
    [n] assigned observations, all distinct and in range. *)
Lemma match_objID_assignment n pred cCentres used vec used' :
  match_objID n pred cCentres used = Some (vec, used') ->
  length vec = length pred /\
  length (assigned vec) = n /\
  NoDup (assigned vec) /\
  (forall j, j ∈ assigned vec -> 0 <= j < Z.of_nat (length cCentres)).
Proof.
  unfold match_objID. intros Hrun.
  apply bind_Some in Hrun as ([[vec0 used0] D] & Hloop & ?). simplify_eq/=.
  by apply match_loop_inv in Hloop as ((Hnd & Hrange & _) & Hcount & Hlen).
Qed.

(** ** The Associator: C3 *)

(** Once [findMinIDX] answers [(-1, -1)], the iteration of the matching
    loop still erases "row -1": it is undefined. *)
Lemma match_step_exhausted vec used distMatrix :
  findMinIDX distMatrix = Some (-1, -1) ->
  match_step (vec, used, distMatrix) = None.
Proof. intros Hmin. unfold match_step. by rewrite Hmin. Qed.

(** C3 (the code departs from the claim): [match_objID] does not stop
    when the distance matrix is exhausted. With more filters than detected
    centres (in particular with no centre at all) some iteration of its loop
    gets [(-1, -1)] from [findMinIDX] and then indexes the matrix with it, so
    the call leaves the bounds of the matrix and has no defined result,
    instead of returning the sentinel for the remaining slots. *)
Theorem match_objID_exhausted_out_of_bounds n pred cCentres used :
  (length cCentres < n)%nat -> match_objID n pred cCentres used = None.
Proof.
  intros Hlt. unfold match_objID.
  destruct (for_each _ _ _) as [st|] eqn:Hrun; [|done]. exfalso.
  apply match_loop_inv in Hrun as (Hinv & Hcount & _).
  destruct st as [[vec used'] D]. destruct Hinv as (Hnd & Hrange & _). simpl in Hcount.
  pose proof (NoDup_bounded_length _ _ Hnd Hrange). lia.
Qed.

Lemma match_objID_exhausted_witness :
  match_objID 1 [Examples.point 0 0 0] [] [] = None.
Proof. apply match_objID_exhausted_out_of_bounds. simpl. lia. Defined.

(** The row of a selection is replaced by six entries, whatever the number
    of centres; if it is row 0, [findMinIDX] then scans six columns of every
    row. With two filters and two centres, the first one nearest to the
    first filter, the second iteration reads past the end of row 1. *)
Example match_objID_six_columns :
  match_objID 2 [Examples.point 0 0 0; Examples.point 10 10 0]
    [Examples.point 1 1 0; Examples.point 9 9 0] [false; false] = None.
Proof. vm_compute. reflexivity. Qed.

(** Where [match_objID] returns an assignment, every slot holds one
    entry, the entries other than the sentinel are indices of detected
    centres, and no such index occurs twice: an observation goes to at most
    one slot. Each of the [n] iterations of the loop gave an observation to
    a slot that had none, so no slot received two. *)
Theorem match_objID_one_to_one n pred cCentres used vec used' :
  match_objID n pred cCentres used = Some (vec, used') ->
  length vec = length pred /\
  length (assigned vec) = n /\
  NoDup (assigned vec) /\
  (forall j, j ∈ assigned vec -> 0 <= j < Z.of_nat (length cCentres)) /\
  (forall i i' j, vec !! i = Some j -> vec !! i' = Some j -> j <> -1 -> i = i').
Proof.
  intros Hrun. apply match_objID_assignment in Hrun as (Hlen & Hcount & Hnd & Hrange).
  split_and!; [done..|]. intros i i' j. by apply NoDup_assigned_lookup.
Qed.

Lemma match_objID_one_to_one_witness :
  length [0; 1] = length [Examples.point 10 10 0; Examples.point 0 0 0] /\
  length (assigned [0; 1]) = 2%nat /\
  NoDup (assigned [0; 1]) /\
  (forall j, j ∈ assigned [0; 1] -> 0 <= j < 2) /\
  (forall i i' j, [0; 1] !! i = Some j -> [0; 1] !! i' = Some j -> j <> -1 -> i = i').
Proof.
  apply (match_objID_one_to_one 2
           [Examples.point 10 10 0; Examples.point 0 0 0]
           [Examples.point 8 8 0; Examples.point 1 1 0]
           [false; false] [0; 1] [true; true]).
  vm_compute. reflexivity.
Defined.

(** ** The filter bank *)

Lemma _init_KFilters_app cnt fs :
  _init_KFilters cnt fs = fs ++ replicate cnt init_filter.
Proof.
  unfold _init_KFilters, upto. generalize 0%nat. revert fs.
  induction cnt as [|cnt IH]; intros fs start; simpl.
  - by rewrite app_nil_r.
  - rewrite IH. by rewrite <- app_assoc.
Qed.

Lemma _init_KFilters_length cnt fs :
  length (_init_KFilters cnt fs) = (length fs + cnt)%nat.
Proof. by rewrite _init_KFilters_app, length_app, length_replicate. Qed.

Lemma seed_new_filters_length diff cCentres cluster_used fs fs' :
  seed_new_filters diff cCentres cluster_used fs = Some fs' -> length fs' = length fs.
Proof.
  unfold seed_new_filters. intros Hrun.
  apply bind_Some in Hrun as ([fs1 skipped] & Hloop & ?). simplify_eq/=.
  eapply (for_each_invariant (fun s => length (fst s) = length fs)) in Hloop; [done..|].
  intros [fs0 sk] i [fs2 sk'] _ Hlen Hbody. simpl in *.
  apply bind_Some in Hbody as (u & _ & Hbody). destruct u; simplify_eq/=; [done|].
  apply bind_Some in Hbody as (c & _ & Hbody).
  apply bind_Some in Hbody as (f & _ & Hbody).
  apply bind_Some in Hbody as (f' & _ & Hbody). simplify_eq.
  by rewrite length_insert.
Qed.

Section TrackerProperties.
Variable cv_predict : KalmanFilter -> KalmanFilter * list float.
Variable cv_correct : KalmanFilter -> list float -> KalmanFilter.

(** The prediction loop calls [predict()] on every filter, in order, and
    reads one point from each returned state. *)
Lemma predict_all_acc fs : forall acc1 acc2 fs' pts,
  for_each (fun '(fs0, predicted_points) f =>
      let '(f', p) := cv_predict f in
      pt ← predicted_point p;
      Some (fs0 ++ [f'], predicted_points ++ [pt]))
    fs (acc1, acc2) = Some (fs', pts) ->
  exists l1 l2,
    fs' = acc1 ++ l1 /\ pts = acc2 ++ l2 /\
    Forall2 (fun f f' => f' = fst (cv_predict f)) fs l1 /\
    Forall2 (fun f pt => predicted_point (snd (cv_predict f)) = Some pt) fs l2.
Proof.
  induction fs as [|f fs IH]; intros acc1 acc2 fs' pts Hrun; simpl in Hrun.
  - simplify_eq. exists [], []. rewrite !app_nil_r. split_and!; [done..|constructor|constructor].
  - destruct (cv_predict f) as [f' p] eqn:Hp.
    apply bind_Some in Hrun as ([a1 a2] & Hbody & Hrun).
    apply bind_Some in Hbody as (pt & Hpt & Hbody). simplify_eq.
    apply IH in Hrun as (l1 & l2 & -> & -> & H1 & H2).
    exists (f' :: l1), (pt :: l2). rewrite <- !app_assoc. simpl.
    split_and!; [done..| |]; constructor; try done; by rewrite Hp.
Qed.

Lemma predict_all_spec fs fs' pts :
  predict_all cv_predict fs = Some (fs', pts) ->
  Forall2 (fun f f' => f' = fst (cv_predict f)) fs fs' /\
  Forall2 (fun f pt => predicted_point (snd (cv_predict f)) = Some pt) fs pts.
Proof.
  intros Hrun. apply predict_all_acc in Hrun as (l1 & l2 & -> & -> & ? & ?). done.
Qed.

Lemma predict_all_length fs fs' pts :
  predict_all cv_predict fs = Some (fs', pts) ->
  length fs' = length fs /\ length pts = length fs.
Proof.
  intros Hrun. apply predict_all_spec in Hrun as [H1 H2].
  apply Forall2_length in H1, H2. lia.
Qed.

Lemma correct_all_length objCopy cCentres fs fs' :
  correct_all cv_correct objCopy cCentres fs = Some fs' -> length fs' = length fs.
Proof.
  unfold correct_all. intros Hrun.
  eapply (for_each_invariant (fun s => length s = length fs)) in Hrun; [done..|].
  intros fs0 i fs1 _ Hlen Hbody.
  apply bind_Some in Hbody as (id & _ & Hbody).
  apply bind_Some in Hbody as (c & _ & Hbody).
  destruct (measurement_accepted _ _); simplify_eq/=; [|done].
  apply bind_Some in Hbody as (f & _ & Hbody). simplify_eq.
  by rewrite length_insert.
Qed.

(** ** C1: the length of the assignment *)

(** C1 (the code departs from the claim): when a frame brings more centres
    than there are filters, and [KFTrack] completes, [k_filters_] has grown
    to the number of centres while [objID] still has one entry per filter
    that existed before: the assignment is not extended for the new slots,
    and the two lengths differ at the end of the cycle. *)
Theorem KFTrack_new_slots_without_assignment ccs_data uninit st st' cCentres :
  centres_of_data ccs_data = Some cCentres ->
  (length (k_filters_ st) < length cCentres)%nat ->
  KFTrack cv_predict cv_correct ccs_data uninit st = Some st' ->
  length (k_filters_ st') = length cCentres /\
  length (objID st') = length (k_filters_ st) /\
  length (k_filters_ st') <> length (objID st').
Proof.
  intros Hdata Hlt Hrun. unfold KFTrack in Hrun.
  apply bind_Some in Hrun as ([fs pts] & Hpred & Hrun).
  rewrite Hdata in Hrun. simpl in Hrun.
  apply bind_Some in Hrun as ([ids used] & Hmatch & Hrun).
  apply bind_Some in Hrun as (st1 & Hrec & Hrun).
  apply bind_Some in Hrun as (? & _ & Hrun).
  apply bind_Some in Hrun as (fs' & Hcorr & Hrun). simplify_eq/=.
  apply predict_all_length in Hpred as [Hfs Hpts].
  apply match_objID_assignment in Hmatch as (Hids & _).
  apply correct_all_length in Hcorr.
  unfold reconcile in Hrec. simpl in Hrec.
  destruct (length ids <? length cCentres)%nat eqn:Hcmp;
    [|apply Nat.ltb_ge in Hcmp; lia].
  apply bind_Some in Hrec as (fs1 & Hseed & ?). simplify_eq/=.
  apply seed_new_filters_length in Hseed. rewrite _init_KFilters_length in Hseed.
  split_and!; lia.
Qed.

End TrackerProperties.

Lemma KFTrack_new_slots_without_assignment_witness :
  exists st',
    KFTrack OpenCV.predict OpenCV.correct (Examples.message [(1, 1); (5, 5)])
      (fun _ => false) Examples.one_track = Some st' /\
    length (k_filters_ st') = 2%nat /\ length (objID st') = 1%nat.
Proof.
  destruct (KFTrack OpenCV.predict OpenCV.correct (Examples.message [(1, 1); (5, 5)])
              (fun _ => false) Examples.one_track) as [st'|] eqn:Hrun;
    [|vm_compute in Hrun; discriminate Hrun].
  exists st'. split; [reflexivity|].
  destruct (KFTrack_new_slots_without_assignment OpenCV.predict OpenCV.correct
              (Examples.message [(1, 1); (5, 5)]) (fun _ => false) Examples.one_track st'
              [Examples.point 1 1 0; Examples.point 5 5 0]) as (H1 & H2 & _).
  - vm_compute. reflexivity.
  - vm_compute. lia.
  - exact Hrun.
  - split; [exact H1|exact H2].
Defined.

Example first_frame_gives_one_track :
  OpenCV.run [[OpenCV.single 1 1]] (ClusterTracker_new true) = Some Examples.one_track.
Proof. vm_compute. reflexivity. Qed.

(** ** C2: the creation step *)

(** The filters present before the creation step stay in front: the new
    ones are pushed at the back. *)
Lemma _init_KFilters_appends cnt fs :
  length (_init_KFilters cnt fs) = (length fs + cnt)%nat /\
  (forall i f, fs !! i = Some f -> _init_KFilters cnt fs !! i = Some f) /\
  (forall i, (length fs <= i < length fs + cnt)%nat ->
     _init_KFilters cnt fs !! i = Some init_filter).
Proof.
  rewrite _init_KFilters_app. split_and!.
  - by rewrite length_app, length_replicate.
  - intros i f Hi. by apply lookup_app_l_Some.
  - intros i Hi. rewrite lookup_app_r by lia. apply lookup_replicate. split; [done|lia].
Qed.

(** C2 (the code departs from the claim): a reachable frame with two
    tracks and three centres. After two frames the tracker holds two
    filters; the third frame has the centres (-1,-1), (5,5) and (9,9), of
    which the first two are matched. One filter is pushed at the back, but
    the creation loop addresses slot [i + diff - skipped = 1]: the unmatched
    centre (9,9) is written over the predicted state of the existing slot 1,
    and the new slot 2 keeps the zero state of a fresh filter. *)
Theorem creation_seeds_wrong_slot :
  exists st2 fs pts ids used st3,
    KFTrack OpenCV.predict OpenCV.correct (Examples.message [(1, 1); (5, 5)])
      (fun _ => false) Examples.one_track = Some st2 /\
    predict_all OpenCV.predict (k_filters_ st2) = Some (fs, pts) /\
    match_objID (length fs) pts
      [Examples.point (-1) (-1) 0; Examples.point 5 5 0; Examples.point 9 9 0]
      [false; false; false] = Some (ids, used) /\
    reconcile [Examples.point (-1) (-1) 0; Examples.point 5 5 0; Examples.point 9 9 0] used
      (mkClusterTracker ids fs 0 true false) = Some st3 /\
    ids = [1; 0] /\ used = [true; true; false] /\
    length fs = 2%nat /\ length (k_filters_ st3) = 3%nat /\
    statePre <$> fs !! 1%nat = Some (Examples.state 0 0 0 0) /\
    statePre <$> k_filters_ st3 !! 1%nat = Some (Examples.state 9 9 0 0) /\
    statePre <$> k_filters_ st3 !! 2%nat = Some (Examples.state 0 0 0 0).
Proof.
  do 6 eexists.
  repeat (split; [vm_compute; reflexivity|]).
  vm_compute. reflexivity.
Qed.

(** With one track and three centres the creation loop addresses a slot
    past the end of [k_filters_]. *)
Example creation_out_of_range :
  KFTrack OpenCV.predict OpenCV.correct (Examples.message [(1, 1); (5, 5); (9, 9)])
    (fun _ => false) Examples.one_track = None.
Proof. vm_compute. reflexivity. Qed.

(** With an empty bank, as after a first frame without clusters, the
    first centre is written to slot [0 + diff - 0 = 1] of a bank of one. *)
Example creation_from_empty_bank :
  OpenCV.run [[]; [OpenCV.single 5 5]] (ClusterTracker_new true) = None.
Proof. vm_compute. reflexivity. Qed.

(** ** C5: the correction phase *)

Lemma vec_at_Some {A} (v : list A) i :
  0 <= i < Z.of_nat (length v) -> exists a, vec_at v i = Some a.
Proof.
  intros Hi. unfold vec_at. destruct (0 <=? i) eqn:H0; [|lia].
  apply lookup_lt_is_Some_2. lia.
Qed.

(** The guard of the correction accepts a measurement when neither
    coordinate compares equal to zero. *)
Lemma measurement_accepted_iff meas0 meas1 :
  measurement_accepted meas0 meas1 = true <->
  feqb meas0 fzero = false /\ feqb meas1 fzero = false.
Proof.
  unfold measurement_accepted. rewrite negb_true_iff, orb_false_iff. done.
Qed.

Section Correction.
Variable cv_correct : KalmanFilter -> list float -> KalmanFilter.

(** A slot whose entry is the sentinel makes the loop read [cCentres[-1]]. *)
Lemma correct_all_sentinel_undefined cCentres f fs ids :
  correct_all cv_correct (-1 :: ids) cCentres (f :: fs) = None.
Proof. done. Qed.

(** C5, as the code has it: when every slot of the assignment holds the
    index of a centre, the correction phase completes; the filter of slot
    [i] is corrected with the [(x, y)] of its centre exactly when neither
    [x] nor [y] compares equal to zero, and is otherwise left as the
    prediction and the reconciliation left it, as are the filters past the
    end of the assignment. A measurement with one zero coordinate is thus
    skipped like (0,0). *)
Theorem correct_all_guarded objCopy cCentres fs :
  (forall i id, objCopy !! i = Some id -> 0 <= id < Z.of_nat (length cCentres)) ->
  (length objCopy <= length fs)%nat ->
  exists fs',
    correct_all cv_correct objCopy cCentres fs = Some fs' /\
    length fs' = length fs /\
    (forall i id c f,
       objCopy !! i = Some id -> vec_at cCentres id = Some c -> fs !! i = Some f ->
       fs' !! i =
         Some (if negb (feqb (float_of_double (pt_x c)) fzero) &&
                  negb (feqb (float_of_double (pt_y c)) fzero)
               then cv_correct f [float_of_double (pt_x c); float_of_double (pt_y c)]
               else f)) /\
    (forall i, (length objCopy <= i)%nat -> fs' !! i = fs !! i).
Proof.
  intros Hids Hlen. unfold correct_all.
  destruct (for_each_counted_total
    (fun k fs1 =>
       length fs1 = length fs /\
       (forall i id c f, (i < k)%nat ->
          objCopy !! i = Some id -> vec_at cCentres id = Some c -> fs !! i = Some f ->
          fs1 !! i =
            Some (if negb (feqb (float_of_double (pt_x c)) fzero) &&
                     negb (feqb (float_of_double (pt_y c)) fzero)
                  then cv_correct f [float_of_double (pt_x c); float_of_double (pt_y c)]
                  else f)) /\
       (forall i, (k <= i)%nat -> fs1 !! i = fs !! i))
    (fun fs0 i =>
       id ← objCopy !! i;
       c ← vec_at cCentres id;
       let meas0 := float_of_double (pt_x c) in
       let meas1 := float_of_double (pt_y c) in
       if measurement_accepted meas0 meas1
       then f ← fs0 !! i; Some (<[i := cv_correct f [meas0; meas1]]> fs0)
       else Some fs0)
    (length objCopy) fs) as (fs' & Hrun & Hl & Hlow & Hhigh).
  - split_and!; [done|lia|done].
  - intros k fs1 Hk (Hl & Hlow & Hhigh).
    destruct (lookup_lt_is_Some_2 objCopy k Hk) as [id Hid].
    destruct (vec_at_Some cCentres id (Hids _ _ Hid)) as [c Hc].
    destruct (lookup_lt_is_Some_2 fs k ltac:(lia)) as [f Hf].
    rewrite Hid. simpl. rewrite Hc. simpl.
    assert (fs1 !! k = Some f) as Hf1 by (rewrite Hhigh; [done|lia]).
    unfold measurement_accepted. rewrite negb_orb.
    destruct (negb (feqb (float_of_double (pt_x c)) fzero) &&
              negb (feqb (float_of_double (pt_y c)) fzero)) eqn:Hg.
    + rewrite Hf1. simpl. eexists. split; [done|]. split_and!.
      * by rewrite length_insert.
      * intros i id' c' f' Hi Hid' Hc' Hf'. destruct (decide (i = k)) as [->|Hne].
        -- simplify_eq. rewrite list_lookup_insert_eq by lia. by rewrite Hg.
        -- rewrite list_lookup_insert_ne by done. apply (Hlow i id'); [lia|done..].
      * intros i Hi. rewrite list_lookup_insert_ne by lia. apply Hhigh. lia.
    + eexists. split; [done|]. split_and!; [done| |].
      * intros i id' c' f' Hi Hid' Hc' Hf'. destruct (decide (i = k)) as [->|Hne].
        -- simplify_eq. by rewrite Hg.
        -- apply (Hlow i id'); [lia|done..].
      * intros i Hi. apply Hhigh. lia.
  - exists fs'. split_and!; [done..| |done].
    intros i id c f Hid. apply Hlow; [by eapply lookup_lt_Some|done].
Qed.

End Correction.

Lemma correct_all_guarded_witness :
  exists fs',
    correct_all OpenCV.correct [1; 0] [Examples.point 0 5 0; Examples.point 3 4 0]
      [Examples.predicted_track; Examples.predicted_track] = Some fs' /\
    fs' !! 0%nat = Some (OpenCV.correct Examples.predicted_track
                           [float_of_Z 3; float_of_Z 4]) /\
    fs' !! 1%nat = Some Examples.predicted_track.
Proof.
  destruct (correct_all_guarded OpenCV.correct [1; 0]
              [Examples.point 0 5 0; Examples.point 3 4 0]
              [Examples.predicted_track; Examples.predicted_track])
    as (fs' & Hrun & _ & Hslot & _).
  - intros [|[|i]] id Hi; vm_compute in Hi; inversion Hi; subst;
      unfold length; lia.
  - vm_compute. lia.
  - exists fs'. split; [exact Hrun|]. split.
    + rewrite (Hslot 0%nat 1 (Examples.point 3 4 0) Examples.predicted_track
                 eq_refl eq_refl eq_refl).
      vm_compute. reflexivity.
    + rewrite (Hslot 1%nat 0 (Examples.point 0 5 0) Examples.predicted_track
                 eq_refl eq_refl eq_refl).
      vm_compute. reflexivity.
Defined.

(** C5 as it is worded fails: the centre (0,5) is not the position (0,0),
    yet the slot matched to it is not corrected, although a correction
    would change the filter. *)
Lemma correction_skipped_outside_sentinel :
  sentinel_position (float_of_Z 0) (float_of_Z 5) = false /\
  correct_all OpenCV.correct [0] [Examples.point 0 5 0] [Examples.predicted_track]
    = Some [Examples.predicted_track] /\
  OpenCV.correct Examples.predicted_track [float_of_Z 0; float_of_Z 5]
    <> Examples.predicted_track.
Proof. split_and!; [vm_compute; reflexivity..|]. vm_compute. discriminate. Qed.

(** ** The reconciliation step taken alone *)

Lemma vec_erase_middle {A} (l1 l2 : list A) a :
  vec_erase (l1 ++ a :: l2) (length l1) = Some (l1 ++ l2).
Proof.
  unfold vec_erase. rewrite length_app. simpl.
  destruct (Nat.ltb_spec (length l1) (length l1 + S (length l2))) as [_|?]; [|lia].
  f_equal. induction l1 as [|b l1 IH]; simpl; [done|]. by rewrite IH.
Qed.

(** The deletion loop removes exactly the slots whose entry is the
    sentinel, in both sequences. *)
Lemma prune_loop_spec rest : forall kept fs_done fs_rest i deleted,
  length fs_rest = length rest ->
  (deleted <= i)%nat -> (i - deleted)%nat = length fs_done ->
  prune_loop rest kept (fs_done ++ fs_rest) i deleted =
    Some (kept ++ (fst <$> matched_pairs rest fs_rest),
          fs_done ++ (snd <$> matched_pairs rest fs_rest)).
Proof.
  unfold matched_pairs.
  induction rest as [|id rest IH]; intros kept fs_done fs_rest i deleted Hlen Hle Hidx.
  - destruct fs_rest; [|done]. simpl. by rewrite !app_nil_r.
  - destruct fs_rest as [|f fs_rest]; [done|]. simpl in *.
    rewrite list.filter_cons. simpl.
    destruct (Z.eqb_spec id (-1)) as [->|Hne].
    + rewrite Hidx, vec_erase_middle. simpl.
      destruct (decide (-1 <> -1)); [done|].
      apply IH; [lia|lia|lia].
    + destruct (decide (id <> -1)); [|done]. simpl.
      rewrite (cons_middle f fs_done fs_rest), app_assoc.
      rewrite IH; [|lia|lia|rewrite length_app; simpl; lia].
      by rewrite <- !app_assoc.
Qed.

(** The reconciliation step, for any assignment and counter given to it.
    [kf_prune_ctr_] is one counter for the whole bank. With at least as
    many centres as entries of [objID] the step leaves it as it is. With
    fewer centres, a counter of at most [filter_prune_interval] is
    incremented and nothing is deleted; a counter above it makes the step
    delete every slot whose entry is the sentinel, from [objID] and from
    [k_filters_] alike, and return to zero. *)
Theorem reconcile_counter_and_pruning cCentres cluster_used st :
  length (objID st) = length (k_filters_ st) ->
  0 <= kf_prune_ctr_ st < 2 ^ 64 ->
  ((length (objID st) < length cCentres)%nat ->
     forall st', reconcile cCentres cluster_used st = Some st' ->
       kf_prune_ctr_ st' = kf_prune_ctr_ st /\ objID st' = objID st) /\
  (length (objID st) = length cCentres ->
     reconcile cCentres cluster_used st = Some st) /\
  ((length cCentres < length (objID st))%nat ->
     kf_prune_ctr_ st <= filter_prune_interval ->
     reconcile cCentres cluster_used st = Some (with_prune_ctr (kf_prune_ctr_ st + 1) st)) /\
  ((length cCentres < length (objID st))%nat ->
     filter_prune_interval < kf_prune_ctr_ st ->
     reconcile cCentres cluster_used st = Some (pruned st)).
Proof.
  intros Hpair Hctr. unfold reconcile. split_and!.
  - intros Hlt st' Hrun. destruct (Nat.ltb_spec (length (objID st)) (length cCentres)); [|lia].
    apply bind_Some in Hrun as (fs & _ & ?). by simplify_eq.
  - intros Heq. rewrite Heq, Nat.ltb_irrefl. done.
  - intros Hlt Hle.
    destruct (Nat.ltb_spec (length (objID st)) (length cCentres)); [lia|].
    destruct (Nat.ltb_spec (length cCentres) (length (objID st))); [|lia].
    simpl. destruct (Z.ltb_spec filter_prune_interval (kf_prune_ctr_ st)); [lia|].
    unfold with_prune_ctr, size_t_incr. rewrite Z.mod_small; [done|].
    unfold filter_prune_interval in *. lia.
  - intros Hlt Hgt.
    destruct (Nat.ltb_spec (length (objID st)) (length cCentres)); [lia|].
    destruct (Nat.ltb_spec (length cCentres) (length (objID st))); [|lia].
    simpl. destruct (Z.ltb_spec filter_prune_interval (kf_prune_ctr_ st)); [|lia].
    pose proof (prune_loop_spec (objID st) [] [] (k_filters_ st) 0 0) as Hloop.
    simpl in Hloop. rewrite Hloop by (done || lia). done.
Qed.

Lemma reconcile_counter_and_pruning_witness :
  reconcile [Examples.point 1 1 0] [true]
    (mkClusterTracker [0; -1] [Examples.track_A; Examples.track_B] 21 true false)
  = Some (mkClusterTracker [0] [Examples.track_A] 0 true false).
Proof.
  destruct (reconcile_counter_and_pruning [Examples.point 1 1 0] [true]
              (mkClusterTracker [0; -1] [Examples.track_A; Examples.track_B] 21 true false))
    as (_ & _ & _ & Hprune); [reflexivity|vm_compute; split; [discriminate|reflexivity]|].
  rewrite Hprune; [vm_compute; reflexivity|vm_compute; lia|vm_compute; reflexivity].
Defined.

(** The step keeps no count per track. With every track matched it
    leaves the counter where it was; and given the assignments of a track
    that is unmatched once, then matched twenty times in a row, it deletes
    that track the first time it is unmatched again, while the track that
    went unmatched those twenty times stays. *)
Lemma match_does_not_reset_staleness :
  kf_prune_ctr_ <$>
    reconcile [Examples.point 1 1 0; Examples.point 5 5 0] [true; true]
      (mkClusterTracker [0; 1] [Examples.track_A; Examples.track_B] 5 true false)
  = Some 5 /\
  for_each Examples.reconcile_frame Examples.regained_match_frames
    (mkClusterTracker [] [Examples.track_A; Examples.track_B] 0 true false)
  = Some (mkClusterTracker [0] [Examples.track_A] 0 true false).
Proof. split; vm_compute; reflexivity. Qed.

(** ** C7: the transition model *)

Global Instance Qc_arith_laws : ArithLaws Qc.
Proof.
  split; simpl.
  - apply Qcplus_0_l.
  - apply Qcplus_0_r.
  - apply Qcmult_0_l.
  - apply Qcmult_1_l.
Qed.

(** C7, as the code has it: every filter that [_init_KFilters] pushes
    carries the same transition matrix, with [dx = dy = 1] and
    [dvx = dvy = 0.01f]; read in exact arithmetic, that matrix sends the
    state [(x, y, vx, vy)] to [(x + vx, y + vy, dvx * vx, dvy * vy)]: the
    position advances by the velocity, and the velocity is scaled by
    [dvx], not carried over. *)
Theorem transition_advances_position_scales_velocity
    (A : Type) `{ArithLaws A} (dvx dvy x y vx vy : A) :
  (forall cnt fs i, (length fs <= i < length fs + cnt)%nat ->
     transitionMatrix <$> _init_KFilters cnt fs !! i =
       Some (transition (float_of_Z 1) (float_of_Z 1) f0_01 f0_01)) /\
  mat_vec (transition a_one a_one dvx dvy) [x; y; vx; vy] =
    [a_add x vx; a_add y vy; a_mul dvx vx; a_mul dvy vy].
Proof.
  split.
  - intros cnt fs i Hi.
    destruct (_init_KFilters_appends cnt fs) as (_ & _ & Hnew).
    by rewrite (Hnew i Hi).
  - unfold mat_vec, transition, dot. simpl.
    by rewrite !a_mul_0_l, !a_mul_1_l, !a_add_0_l, !a_add_0_r.
Qed.

Lemma transition_advances_position_scales_velocity_witness :
  mat_vec (transition 1%Qc 1%Qc (Q2Qc (1 # 100)) (Q2Qc (1 # 100)))
    [Q2Qc 1; Q2Qc 2; Q2Qc 3; Q2Qc 4] =
  [Q2Qc 1 + Q2Qc 3; Q2Qc 2 + Q2Qc 4;
   Q2Qc (1 # 100) * Q2Qc 3; Q2Qc (1 # 100) * Q2Qc 4]%Qc.
Proof.
  exact (proj2 (transition_advances_position_scales_velocity Qc
                  (Q2Qc (1 # 100)) (Q2Qc (1 # 100)) (Q2Qc 1) (Q2Qc 2) (Q2Qc 3) (Q2Qc 4))).
Defined.

(** C7 as it is worded fails: a filter with velocity (1, 0) is predicted
    with velocity (0.01f, 0), in the matrix product as in the prediction of
    the OpenCV model. *)
Lemma velocity_not_carried_over :
  mat_vec (transitionMatrix init_filter) (Examples.state 3 4 1 0)
    = [float_of_Z 4; float_of_Z 4; f0_01; fzero] /\
  snd (OpenCV.predict
         (mkKalmanFilter (Examples.state 3 4 1 0) (Examples.state 3 4 1 0)
            (transitionMatrix init_filter) (measurementMatrix init_filter)
            (processNoiseCov init_filter) (measurementNoiseCov init_filter)
            (errorCovPre init_filter) (errorCovPost init_filter) (gain init_filter)))
    = [float_of_Z 4; float_of_Z 4; f0_01; fzero] /\
  f0_01 <> float_of_Z 1.
Proof. split_and!; [vm_compute; reflexivity..|]. vm_compute. discriminate. Qed.

(** ** The first frame *)

Lemma seed_statePre_init_filter x y :
  seed_statePre x y init_filter =
    Some (set_statePre [x; y; float_of_Z 0; float_of_Z 0] init_filter).
Proof. reflexivity. Qed.

Lemma seed_first_frame_fresh cluster_centres :
  seed_first_frame cluster_centres (replicate (length cluster_centres) init_filter) =
    Some (seeded <$> cluster_centres).
Proof.
  unfold seed_first_frame. set (n := length cluster_centres).
  destruct (for_each_counted_total
    (fun k fs => fs = (seeded <$> take k cluster_centres) ++ replicate (n - k) init_filter)
    (fun fs i =>
       c ← cluster_centres !! i;
       let pt := mkPoint (double_of_float (xyz_x c)) (double_of_float (xyz_y c)) dzero in
       f ← fs !! i;
       f' ← seed_statePre (float_of_double (pt_x pt)) (float_of_double (pt_y pt)) f;
       Some (<[i := f']> fs))
    n (replicate n init_filter)) as (fs' & Hrun & ->).
  - simpl. by rewrite Nat.sub_0_r.
  - intros k fs Hk ->.
    destruct (lookup_lt_is_Some_2 cluster_centres k Hk) as [c Hc].
    assert (length (seeded <$> take k cluster_centres) = k) as Hlen.
    { rewrite length_fmap, length_take. fold n. lia. }
    rewrite Hc. simpl.
    rewrite lookup_app_r by lia. rewrite Hlen, Nat.sub_diag.
    replace (n - k)%nat with (S (n - S k)) by lia. simpl.
    eexists. split; [done|].
    rewrite insert_app_r_alt by lia. rewrite Hlen, Nat.sub_diag. simpl.
    rewrite (take_S_r _ _ _ Hc), fmap_app. simpl.
    by rewrite <- app_assoc.
  - etrans; [exact Hrun|]. f_equal. rewrite Nat.sub_diag. simpl.
    rewrite app_nil_r. unfold n. by rewrite firstn_all.
Qed.

Lemma statePre_seeded c :
  valid_binary prec32 emax32 (xyz_x c) = true ->
  valid_binary prec32 emax32 (xyz_y c) = true ->
  statePre (seeded c) = [xyz_x c; xyz_y c; fzero; fzero].
Proof.
  intros Hx Hy. unfold seeded. cbn [statePre set_statePre].
  by rewrite !float_of_double_of_float.
Qed.

Section FirstFrame.
Variable cv_predict : KalmanFilter -> KalmanFilter * list float.
Variable cv_correct : KalmanFilter -> list float -> KalmanFilter.

(** On the first frame, whatever the two OpenCV calls would do,
    [cloudCallback] neither predicts, nor matches, nor prunes: [objID] and
    the counter stay as constructed, and the bank gets exactly one fresh
    filter per cluster, in order; the [statePre] of the filter of a cluster
    is the [(x, y)] of the centre of that cluster, a pair of [float]
    values, with zero velocity. *)
Theorem first_frame_one_track_per_cluster clusters uninit visualize :
  exists fs,
    cloudCallback cv_predict cv_correct clusters uninit (ClusterTracker_new visualize) =
      Some {| objID := [];
              k_filters_ := fs;
              kf_prune_ctr_ := 0;
              visualize_ := visualize;
              first_frame_ := false |} /\
    length fs = length clusters /\
    forall i cluster, clusters !! i = Some cluster ->
      fs !! i = Some (seeded (cluster_centre cluster)) /\
      (valid_binary prec32 emax32 (xyz_x (cluster_centre cluster)) = true ->
       valid_binary prec32 emax32 (xyz_y (cluster_centre cluster)) = true ->
       statePre (seeded (cluster_centre cluster)) =
         [xyz_x (cluster_centre cluster); xyz_y (cluster_centre cluster); fzero; fzero]).
Proof.
  exists (seeded <$> (cluster_centre <$> clusters)). split_and!.
  - unfold cloudCallback, ClusterTracker_new. simpl.
    rewrite _init_KFilters_app. simpl.
    replace (length clusters) with (length (cluster_centre <$> clusters))
      by apply length_fmap.
    by rewrite seed_first_frame_fresh.
  - by rewrite !length_fmap.
  - intros i cluster Hi. split; [|apply statePre_seeded].
    by rewrite !list_lookup_fmap, Hi.
Qed.

End FirstFrame.

Lemma first_frame_one_track_per_cluster_witness :
  exists fs,
    cloudCallback OpenCV.predict OpenCV.correct [OpenCV.single 1 0; OpenCV.single 5 5]
      (fun _ => false) (ClusterTracker_new true) =
      Some (mkClusterTracker [] fs 0 true false) /\
    length fs = 2%nat /\
    statePre <$> fs !! 0%nat = Some (Examples.state 1 0 0 0) /\
    statePre <$> fs !! 1%nat = Some (Examples.state 5 5 0 0).
Proof.
  destruct (first_frame_one_track_per_cluster OpenCV.predict OpenCV.correct
              [OpenCV.single 1 0; OpenCV.single 5 5] (fun _ => false) true)
    as (fs & Hrun & Hlen & Hslot).
  exists fs. split; [exact Hrun|]. split; [exact Hlen|].
  destruct (Hslot 0%nat (OpenCV.single 1 0) eq_refl) as [H0 Hpre0].
  destruct (Hslot 1%nat (OpenCV.single 5 5) eq_refl) as [H1 Hpre1].
  rewrite H0, H1. cbn [fmap option_fmap option_map].
  rewrite Hpre0 by (vm_compute; reflexivity).
  rewrite Hpre1 by (vm_compute; reflexivity).
  split; vm_compute; reflexivity.
Defined.

(** The example of the claim: a first frame with the centres (1,0) and
    (5,5) gives two tracks, at those positions, with zero velocity. *)
Example first_frame_two_tracks :
  (fun st => statePre <$> k_filters_ st) <$>
    cloudCallback OpenCV.predict OpenCV.correct
      [OpenCV.single 1 0; OpenCV.single 5 5] (fun _ => false) (ClusterTracker_new true)
  = Some [Examples.state 1 0 0 0; Examples.state 5 5 0 0].
Proof. vm_compute. reflexivity. Qed.

(** ** The distance used by the Associator *)

Lemma dsub_zero_r (v : double) : dsub v dzero = v.
Proof. by destruct v as [[]|[]| |]. Qed.

Lemma centres_data_cons c cs :
  centres_data (c :: cs) = xyz_x c :: xyz_y c :: xyz_z c :: centres_data cs.
Proof. reflexivity. Qed.

Lemma centres_of_centres_data cluster_centres :
  centres_of_data (centres_data cluster_centres) =
    Some ((fun c => mkPoint (double_of_float (xyz_x c)) (double_of_float (xyz_y c))
                      (double_of_float (xyz_z c))) <$> cluster_centres).
Proof.
  induction cluster_centres as [|c cs IH]; [done|].
  rewrite centres_data_cons. cbn [centres_of_data]. by rewrite IH.
Qed.

Lemma euclidian_dst_flat_centre x y vx cx cy :
  euclidian_dst
    (mkPoint (double_of_float x) (double_of_float y) (double_of_float vx))
    (mkPoint (double_of_float cx) (double_of_float cy) (double_of_float fzero))
  = association_distance x y vx cx cy.
Proof.
  unfold euclidian_dst, association_distance. simpl.
  change (double_of_float fzero) with dzero. by rewrite dsub_zero_r.
Qed.

Section Association.
Variable cv_predict : KalmanFilter -> KalmanFilter * list float.

(** In a frame handled by [KFTrack], the point predicted for a
    filter has the first three entries of the predicted state, so its [z] is
    the entry of index 2, the velocity along [x]; the centres that
    [cloudCallback] sends have [z = 0]; and the entry of the distance matrix
    for the filter and a centre is the square root of
    [dx^2 + dy^2 + vx^2], in which the velocity takes part. *)
Theorem association_uses_velocity_as_z fs fs' pts clusters :
  predict_all cv_predict fs = Some (fs', pts) ->
  exists cCentres,
    centres_of_data (centres_data (cluster_centre <$> clusters)) = Some cCentres /\
    forall i j f cluster,
      fs !! i = Some f -> clusters !! j = Some cluster ->
      exists x y vx,
        snd (cv_predict f) !! 0%nat = Some x /\
        snd (cv_predict f) !! 1%nat = Some y /\
        snd (cv_predict f) !! 2%nat = Some vx /\
        pts !! i = Some (mkPoint (double_of_float x) (double_of_float y)
                           (double_of_float vx)) /\
        pt_z <$> cCentres !! j = Some dzero /\
        (dist_matrix pts cCentres !! i ≫= fun row => row !! j) =
          Some (association_distance x y vx
                  (xyz_x (cluster_centre cluster)) (xyz_y (cluster_centre cluster))).
Proof.
  intros Hrun. eexists. split; [apply centres_of_centres_data|].
  intros i j f cluster Hi Hj.
  apply predict_all_spec in Hrun as [_ Hpts].
  destruct (Forall2_lookup_l _ _ _ _ _ Hpts Hi) as (pt & Hpt & Hread).
  unfold predicted_point in Hread.
  apply bind_Some in Hread as (x & Hx & Hread).
  apply bind_Some in Hread as (y & Hy & Hread).
  apply bind_Some in Hread as (vx & Hvx & Hread). simplify_eq.
  exists x, y, vx. split_and!; [done..| |].
  - rewrite !list_lookup_fmap, Hj. done.
  - unfold dist_matrix. rewrite list_lookup_fmap, Hpt. simpl.
    rewrite !list_lookup_fmap, Hj. simpl.
    by rewrite <- euclidian_dst_flat_centre.
Qed.

End Association.

Lemma association_uses_velocity_as_z_witness :
  exists fs' pts cCentres,
    predict_all OpenCV.predict [Examples.track_A] = Some (fs', pts) /\
    centres_of_data (centres_data (cluster_centre <$> [OpenCV.single 3 4])) = Some cCentres /\
    exists x y vx,
      (dist_matrix pts cCentres !! 0%nat ≫= fun row => row !! 0%nat) =
        Some (association_distance x y vx (float_of_Z 3) (float_of_Z 4)).
Proof.
  destruct (predict_all OpenCV.predict [Examples.track_A]) as [[fs' pts]|] eqn:Hrun;
    [|vm_compute in Hrun; discriminate Hrun].
  destruct (association_uses_velocity_as_z OpenCV.predict [Examples.track_A] fs' pts
              [OpenCV.single 3 4] Hrun) as (cCentres & Hdata & Hdist).
  destruct (Hdist 0%nat 0%nat Examples.track_A (OpenCV.single 3 4) eq_refl eq_refl)
    as (x & y & vx & _ & _ & _ & _ & _ & Hd).
  exists fs', pts, cCentres. split; [reflexivity|]. split; [exact Hdata|].
  exists x, y, vx. exact Hd.
Defined.

(** With a predicted velocity the distance of the Associator is not the
    distance in the plane: a prediction at the position of the centre (4,0)
    with velocity 3 is at distance 3 from it, and a prediction at the origin
    with that velocity at distance 5 instead of 4. *)
Example association_distance_is_not_planar :
  association_distance (float_of_Z 4) fzero (float_of_Z 3) (float_of_Z 4) fzero
    = float_of_Z 3 /\
  planar_distance (float_of_Z 4) fzero (float_of_Z 4) fzero = fzero /\
  association_distance fzero fzero (float_of_Z 3) (float_of_Z 4) fzero = float_of_Z 5 /\
  planar_distance fzero fzero (float_of_Z 4) fzero = float_of_Z 4.
Proof. split_and!; vm_compute; reflexivity. Qed.

(** ** C9: critical sections *)

Module LockingProperties.
Import Locking.

(** C9, as the code has it: whatever arm the reconciliation takes, a call
    of [KFTrack] predicts while holding no mutex, matches while holding
    [obj_mutex_] alone, creates or prunes while holding [obj_mutex_] and
    [filter_mutex_], and corrects while holding [filter_mutex_] alone,
    [obj_mutex_] having been released; so another call can run its whole
    cycle between the prediction of this call and its matching. *)
Theorem KFTrack_phases_locked_separately (b0 b1 : branch) :
  run_schedule (alone b0) (start [KFTrack_events b0]) =
    Some ([(0%nat, Predict, []); (0%nat, Associate, [obj_mutex_])] ++
          ((fun p => (0%nat, p, [filter_mutex_; obj_mutex_])) <$>
             phases_of (reconcile_events b0)) ++
          [(0%nat, Emit, []); (0%nat, Correct, [filter_mutex_])]) /\
  (exists trace,
     run_schedule (overtaken b0 b1) (start [KFTrack_events b0; KFTrack_events b1]) =
       Some trace /\
     fst <$> trace =
       [(0%nat, Predict)] ++
       ((fun p => (1%nat, p)) <$> phases_of (KFTrack_events b1)) ++
       ((fun p => (0%nat, p)) <$> tail (phases_of (KFTrack_events b0)))).
Proof.
  split.
  - destruct b0; vm_compute; reflexivity.
  - destruct b0, b1; eexists; (split; [vm_compute; reflexivity|]); reflexivity.
Qed.

(** C9 as it is worded fails: in a call that takes no arm of the
    reconciliation no mutex is held at every phase, and with two such calls
    both predictions can run before either correction. *)
Lemma KFTrack_cycle_not_atomic :
  ~ one_critical_section
      (default [] (run_schedule (alone NoChange) (start [KFTrack_events NoChange]))) /\
  fst <$> default [] (run_schedule (overtaken NoChange NoChange)
                        (start [KFTrack_events NoChange; KFTrack_events NoChange])) =
    [(0%nat, Predict); (1%nat, Predict); (1%nat, Associate); (1%nat, Emit);
     (1%nat, Correct); (0%nat, Associate); (0%nat, Emit); (0%nat, Correct)].
Proof.
  split; [|vm_compute; reflexivity].
  intros [m Hm]. specialize (Hm (0%nat, Predict, []) ltac:(left)).
  by apply elem_of_nil in Hm.
Qed.

End LockingProperties.

(** * Further properties *)

(** ** Comparison of floats *)

Lemma SFcompare_Eq_Lt_trans a b c :
  SFcompare a b = Some Eq -> SFcompare b c = Some Lt -> SFcompare a c = Some Lt.
Proof.
  destruct a as [sa|sa| |sa ma ea], b as [sb|sb| |sb mb eb], c as [sc|sc| |sc mc ec];
    cbn; try discriminate;
    repeat match goal with s : bool |- _ => destruct s end;
    cbn; try discriminate; try reflexivity.
  all: change (Pos.compare_cont Eq) with Pos.compare.
  all: destruct (Z.compare_spec ea eb), (Z.compare_spec eb ec), (Z.compare_spec ea ec);
       try discriminate; try reflexivity; try lia; subst.
  all: destruct (Pos.compare_spec ma mb), (Pos.compare_spec mb mc), (Pos.compare_spec ma mc);
       cbn; try discriminate; try reflexivity; try lia.
Qed.

Lemma SFcompare_refl_not_Lt a : SFcompare a a <> Some Lt.
Proof.
  destruct a as [[]|[]| |[] m e]; cbn; try discriminate.
  all: rewrite Z.compare_refl; change (Pos.compare_cont Eq) with Pos.compare;
       rewrite Pos.compare_refl; discriminate.
Qed.

Lemma fltb_irrefl a : fltb a a = false.
Proof.
  unfold fltb, SFltb. pose proof (SFcompare_refl_not_Lt a).
  by destruct (SFcompare a a) as [[]|].
Qed.

Lemma feqb_fltb_trans a b c : feqb a b = true -> fltb b c = true -> fltb a c = true.
Proof.
  unfold feqb, fltb, SFeqb, SFltb.
  destruct (SFcompare a b) as [[]|] eqn:Hab; try discriminate.
  destruct (SFcompare b c) as [[]|] eqn:Hbc; try discriminate.
  intros _ _. by rewrite (SFcompare_Eq_Lt_trans a b c).
Qed.

(** ** The scan of [findMinIDX] *)

Lemma scan_inv_step D pp c row el acc :
  D !! pp = Some row -> row !! c = Some el -> (c < row0_size D)%nat ->
  scan_inv D pp c acc ->
  scan_inv D pp (S c)
    (if fltb el (fst acc) then (el, (Z.of_nat pp, Z.of_nat c)) else acc).
Proof.
  intros Hrow Hel Hc [Hall Hsel]. destruct acc as [minEl idx]. simpl in *.
  assert (forall r' c', scanned_before r' c' pp (S c) ->
            scanned_before r' c' pp c \/ (r' = pp /\ c' = c)) as Hsplit.
  { unfold scanned_before. intros r' c' [?|[? ?]]; [by left; left|].
    destruct (decide (c' = c)); [by right|left; right; lia]. }
  destruct (fltb el minEl) eqn:Hlt; split; simpl.
  - intros r' c' row' w Hr' Hw Hc' Hbefore.
    destruct (Hsplit _ _ Hbefore) as [Hold|[-> ->]].
    + destruct (fltb w el) eqn:Hwe; [|done].
      by rewrite <- (Hall _ _ _ _ Hr' Hw Hc' Hold), (fltb_trans w el minEl).
    + simplify_eq. apply fltb_irrefl.
  - right. exists pp, c, row. split_and!; try done.
    + destruct Hsel as [[-> _]|(?&?&?&_&_&_&_&Hl&_)]; [done|].
      by apply (fltb_trans el minEl).
    + right. lia.
    + intros r' c' row' w Hr' Hw Hc' Hbefore.
      pose proof (Hall _ _ _ _ Hr' Hw Hc' Hbefore) as Hnot. split.
      * destruct (fltb w el) eqn:Hwe; [|done].
        by rewrite <- Hnot, (fltb_trans w el minEl).
      * destruct (feqb w el) eqn:Hwe; [|done].
        by rewrite <- Hnot, (feqb_fltb_trans w el minEl).
  - intros r' c' row' w Hr' Hw Hc' Hbefore.
    destruct (Hsplit _ _ Hbefore) as [Hold|[-> ->]]; [by eapply Hall|].
    by simplify_eq.
  - destruct Hsel as [?|(r0 & c0 & row0 & ? & ? & ? & ? & ? & Hb & Hfirst)]; [by left|].
    right. exists r0, c0, row0. split_and!; try done.
    destruct Hb as [?|[? ?]]; [by left|right; lia].
Qed.

Lemma scan_inv_next_row D pp acc :
  scan_inv D pp (row0_size D) acc -> scan_inv D (S pp) 0 acc.
Proof.
  intros [Hall Hsel]. split.
  - intros r' c' row w Hr Hw Hc Hb. apply (Hall r' c' row w); try done.
    destruct Hb as [?|[? ?]]; [|lia].
    destruct (decide (r' = pp)) as [->|]; [by right|left; lia].
  - destruct Hsel as [?|(r0 & c0 & row0 & ? & ? & ? & Hc0 & ? & Hb & Hfirst)]; [by left|].
    right. exists r0, c0, row0. split_and!; try done.
    destruct Hb as [?|[-> ?]]; left; lia.
Qed.

(** The scan of [findMinIDX], when it is defined. *)
Lemma findMinIDX_scan D ij :
  findMinIDX D = Some ij ->
  exists minEl, scan_inv D (length D) 0 (minEl, ij).
Proof.
  unfold findMinIDX. intros Hrun.
  apply bind_Some in Hrun as ([minEl idx] & Hscan & ?). simplify_eq/=.
  exists minEl.
  eapply (for_each_counted (fun k acc => scan_inv D k 0 acc)) in Hscan; [done| |].
  - split; [|by left]. intros r' c' row w _ _ _ [?|[? ?]]; lia.
  - intros pp acc acc' Hpp Hinv Hbody.
    apply bind_Some in Hbody as (row & Hrow & Hbody).
    apply scan_inv_next_row.
    eapply (for_each_counted (fun c acc => scan_inv D pp c acc)) in Hbody; [done|done|].
    intros c [mEl mIdx] acc2 Hc Hinv2 Hcol. simpl in Hcol.
    apply bind_Some in Hcol as (el & Hel & Hcol).
    pose proof (scan_inv_step D pp c row el (mEl, mIdx) Hrow Hel Hc Hinv2) as Hstep.
    simpl in Hstep. by destruct (fltb el mEl); simplify_eq.
Qed.

(** [findMinIDX] reads column [c] of every row for every [c] below the
    length of row 0: it is defined exactly when no row is shorter than
    row 0. *)
Lemma findMinIDX_defined_iff D :
  is_Some (findMinIDX D) <-> Forall (fun row => (row0_size D <= length row)%nat) D.
Proof.
  unfold findMinIDX. split.
  - intros [ij Hrun]. apply bind_Some in Hrun as (acc & Hscan & _).
    apply Forall_lookup. intros r row Hr.
    assert (forall r row, (r < length D)%nat -> D !! r = Some row ->
              (row0_size D <= length row)%nat) as Hall.
    { refine (for_each_counted (fun k _ =>
                forall r row, (r < k)%nat -> D !! r = Some row ->
                  (row0_size D <= length row)%nat) _ _ _ _ Hscan _ _).
      - intros ??; lia.
      - intros pp acc0 acc1 Hpp Hprev Hbody r' row' Hr' Hrow'.
        destruct (decide (r' = pp)) as [->|]; [|apply (Hprev r' row'); [lia|done]].
        apply bind_Some in Hbody as (row0 & Hrow0 & Hbody).
        assert (row0 = row') as -> by congruence.
        refine (for_each_counted (fun c _ => (c <= length row')%nat) _ _ _ _ Hbody _ _);
          [lia|].
        intros c [mEl mIdx] acc2 Hc _ Hcol. simpl in Hcol.
        apply bind_Some in Hcol as (el & Hel & _). apply lookup_lt_Some in Hel. lia. }
    apply (Hall r row); [by eapply lookup_lt_Some|done].
  - intros Hrows.
    destruct (for_each_counted_total (fun _ (_ : float * (Z * Z)) => True)
      (fun acc pp =>
         row ← D !! pp;
         for_each (fun '(minEl, minIndex) c =>
             el ← row !! c;
             if fltb el minEl
             then Some (el, (Z.of_nat pp, Z.of_nat c))
             else Some (minEl, minIndex))
           (upto (row0_size D)) acc)
      (length D) (FLT_MAX, (-1, -1))) as (acc & Hrun & _); [done| |].
    + intros pp acc Hpp _.
      destruct (lookup_lt_is_Some_2 D pp Hpp) as [row Hrow]. rewrite Hrow. simpl.
      pose proof (Forall_lookup_1 _ _ _ _ Hrows Hrow) as Hlen. simpl in Hlen.
      destruct (for_each_counted_total (fun _ (_ : float * (Z * Z)) => True)
        (fun '(minEl, minIndex) c =>
           el ← row !! c;
           if fltb el minEl
           then Some (el, (Z.of_nat pp, Z.of_nat c))
           else Some (minEl, minIndex))
        (row0_size D) acc) as (acc' & Hrun' & _); [done| |by exists acc'].
      intros c [mEl mIdx] Hc _.
      destruct (lookup_lt_is_Some_2 row c ltac:(lia)) as [el Hel]. rewrite Hel. simpl.
      destruct (fltb el mEl); by eexists.
    + rewrite Hrun. by eexists.
Qed.

(** X1: [findMinIDX] is defined exactly when no row of the matrix is
    shorter than row 0, whose length bounds the columns it reads in every
    row; on the matrix of distances built by [match_objID] it is always
    defined. *)
Theorem findMinIDX_defined_when_rows_reach_row0 D pred cCentres :
  (is_Some (findMinIDX D) <->
   Forall (fun row => (row0_size D <= length row)%nat) D) /\
  is_Some (findMinIDX (dist_matrix pred cCentres)).
Proof.
  split; [apply findMinIDX_defined_iff|].
  apply findMinIDX_defined_iff. apply Forall_lookup. intros r row Hr.
  assert (forall row', row' ∈ dist_matrix pred cCentres -> length row' = length cCentres)
    as Hlen.
  { intros row' Hin. unfold dist_matrix in Hin.
    apply list_elem_of_fmap in Hin as (pp & -> & _). by rewrite length_fmap. }
  rewrite (Hlen row) by (by eapply list_elem_of_lookup_2).
  destruct (dist_matrix pred cCentres) as [|row0 D'] eqn:HD; [done|].
  simpl. rewrite (Hlen row0); [done|]. left.
Qed.

(** X2: when [findMinIDX] selects a position, the entry there is below
    [FLT_MAX], no entry that the scan reads is below it, and every entry
    read earlier in row-major order is neither below nor equal to it: the
    selection is the first minimum. *)
Theorem findMinIDX_first_minimum D i j :
  findMinIDX D = Some (i, j) -> i <> -1 ->
  exists r c row v,
    i = Z.of_nat r /\ j = Z.of_nat c /\
    D !! r = Some row /\ row !! c = Some v /\ (c < row0_size D)%nat /\
    fltb v FLT_MAX = true /\
    (forall r' c' row' w,
       D !! r' = Some row' -> row' !! c' = Some w -> (c' < row0_size D)%nat ->
       fltb w v = false) /\
    (forall r' c' row' w,
       D !! r' = Some row' -> row' !! c' = Some w -> (c' < row0_size D)%nat ->
       scanned_before r' c' r c -> feqb w v = false).
Proof.
  intros Hrun Hi. apply findMinIDX_scan in Hrun as (minEl & Hall & Hsel).
  simpl in *. destruct Hsel as [[_ ?]|(r & c & row & ? & Hr & Hv & Hc & Hl & _ & Hfirst)];
    simplify_eq.
  exists r, c, row, minEl. split_and!; try done.
  - intros r' c' row' w Hr' Hw Hc'. apply (Hall r' c' row' w); try done.
    left. by eapply lookup_lt_Some.
  - intros r' c' row' w Hr' Hw Hc' Hb. by apply (Hfirst r' c' row' w).
Qed.

(** X3: [findMinIDX] answers [(-1, -1)] exactly when no entry that it
    reads is below [FLT_MAX], as for a matrix without rows or without
    columns; the two components of its answer are [-1] together. *)
Theorem findMinIDX_nothing_below_FLT_MAX D i j :
  findMinIDX D = Some (i, j) ->
  (i = -1 <-> j = -1) /\
  (i = -1 <->
   forall r c row w,
     D !! r = Some row -> row !! c = Some w -> (c < row0_size D)%nat ->
     fltb w FLT_MAX = false).
Proof.
  intros Hrun. apply findMinIDX_scan in Hrun as (minEl & Hall & Hsel). simpl in *.
  destruct Hsel as [[-> ?]|(r & c & row & ? & Hr & Hv & Hc & Hl & _ & _)]; simplify_eq.
  - split; [done|]. split; [|done]. intros _ r c row w Hr Hw Hc.
    apply (Hall r c row w); try done. left. by eapply lookup_lt_Some.
  - split; [lia|]. split; [lia|]. intros Hnone.
    specialize (Hnone r c row minEl Hr Hv Hc). unfold live in Hl. congruence.
Qed.

Lemma findMinIDX_first_minimum_witness :
  exists r c row v,
    0 = Z.of_nat r /\ 0 = Z.of_nat c /\
    dist_matrix [Examples.point 0 0 0]
      [Examples.point 3 4 0; Examples.point 0 5 0] !! r = Some row /\
    row !! c = Some v /\
    (c < row0_size (dist_matrix [Examples.point 0 0 0]
                      [Examples.point 3 4 0; Examples.point 0 5 0]))%nat /\
    fltb v FLT_MAX = true /\
    (forall r' c' row' w,
       dist_matrix [Examples.point 0 0 0]
         [Examples.point 3 4 0; Examples.point 0 5 0] !! r' = Some row' ->
       row' !! c' = Some w ->
       (c' < row0_size (dist_matrix [Examples.point 0 0 0]
                          [Examples.point 3 4 0; Examples.point 0 5 0]))%nat ->
       fltb w v = false) /\
    (forall r' c' row' w,
       dist_matrix [Examples.point 0 0 0]
         [Examples.point 3 4 0; Examples.point 0 5 0] !! r' = Some row' ->
       row' !! c' = Some w ->
       (c' < row0_size (dist_matrix [Examples.point 0 0 0]
                          [Examples.point 3 4 0; Examples.point 0 5 0]))%nat ->
       scanned_before r' c' r c -> feqb w v = false).
Proof.
  apply (findMinIDX_first_minimum
           (dist_matrix [Examples.point 0 0 0]
              [Examples.point 3 4 0; Examples.point 0 5 0]) 0 0).
  - vm_compute. reflexivity.
  - lia.
Defined.

Lemma findMinIDX_nothing_below_FLT_MAX_witness :
  (-1 = -1 <-> -1 = -1) /\
  (-1 = -1 <->
   forall r c row w,
     [[FLT_MAX; FLT_MAX]] !! r = Some row -> row !! c = Some w ->
     (c < row0_size [[FLT_MAX; FLT_MAX]])%nat ->
     fltb w FLT_MAX = false).
Proof.
  apply (findMinIDX_nothing_below_FLT_MAX [[FLT_MAX; FLT_MAX]] (-1) (-1)).
  vm_compute. reflexivity.
Defined.

(** ** The distance *)

Lemma binary_round_aux_negb prec emax s m e l :
  binary_round_aux prec emax (negb s) m e l = SFopp (binary_round_aux prec emax s m e l).
Proof.
  unfold binary_round_aux.
  destruct (shr_fexp prec emax m e l) as [mrs' e'].
  destruct (shr_fexp prec emax _ e' loc_Exact) as [mrs'' e''].
  destruct (shr_m mrs''); [reflexivity| |reflexivity].
  by destruct (e'' <=? emax - prec).
Qed.

Lemma binary_normalize_opp prec emax z e :
  z <> 0 ->
  binary_normalize prec emax (- z) e false = SFopp (binary_normalize prec emax z e false).
Proof.
  intros Hz. unfold binary_normalize, binary_round.
  destruct z as [|p|p]; [done|..];
    [change (- Z.pos p) with (Z.neg p)|change (- Z.neg p) with (Z.pos p)];
    cbv beta iota; destruct (shl_align p e _) as [mz ez].
  - apply (binary_round_aux_negb prec emax false).
  - apply (binary_round_aux_negb prec emax true).
Qed.

(** Exchanging the operands of a subtraction changes the sign of the
    result, except that a zero difference of the same sign is [+0] both
    ways. *)
Lemma SFsub_swap prec emax a b :
  SFsub prec emax b a = SFopp (SFsub prec emax a b) \/
  (SFsub prec emax a b = S754_zero false /\ SFsub prec emax b a = S754_zero false).
Proof.
  destruct a as [sa|sa| |sa ma ea], b as [sb|sb| |sb mb eb];
    try (left; by repeat match goal with s : bool |- _ => destruct s end).
  - destruct sa, sb; (by left) || (by right).
  - unfold SFsub. rewrite (Z.min_comm eb ea).
    set (ez := Z.min ea eb).
    set (A := cond_Zopp sa (Z.pos (fst (shl_align ma ea ez)))).
    set (B := cond_Zopp sb (Z.pos (fst (shl_align mb eb ez)))).
    destruct (decide (A - B = 0)) as [Heq|Hne].
    + right. replace (B - A) with 0 by lia. by rewrite Heq.
    + left. replace (B - A) with (- (A - B)) by lia.
      by apply binary_normalize_opp.
Qed.

Lemma SFmul_opp_opp prec emax x :
  SFmul prec emax (SFopp x) (SFopp x) = SFmul prec emax x x.
Proof. by destruct x as [[]|[]| |[] m e]. Qed.

Lemma dsub_square_swap a b :
  dmul (dsub b a) (dsub b a) = dmul (dsub a b) (dsub a b).
Proof.
  unfold dmul, dsub.
  destruct (SFsub_swap prec64 emax64 a b) as [->|[-> ->]]; [|done].
  apply SFmul_opp_opp.
Qed.

(** X4: the distance does not depend on the order of its two points. *)
Theorem euclidian_dst_symmetric p1 p2 :
  euclidian_dst p1 p2 = euclidian_dst p2 p1.
Proof.
  unfold euclidian_dst. cbv zeta.
  by rewrite (dsub_square_swap (pt_x p1)), (dsub_square_swap (pt_y p1)),
    (dsub_square_swap (pt_z p1)).
Qed.

Lemma binary_round_aux_sign_clear prec emax m e l :
  sign_clear (binary_round_aux prec emax false m e l).
Proof.
  unfold binary_round_aux.
  destruct (shr_fexp prec emax m e l) as [mrs' e'].
  destruct (shr_fexp prec emax _ e' loc_Exact) as [mrs'' e''].
  destruct (shr_m mrs''); [done| |done].
  by destruct (e'' <=? emax - prec).
Qed.

Lemma binary_round_sign_clear prec emax m e :
  sign_clear (binary_round prec emax false m e).
Proof.
  unfold binary_round. destruct (shl_align m e _) as [mz ez].
  apply binary_round_aux_sign_clear.
Qed.

Lemma SFmul_square_sign_clear prec emax x : sign_clear (SFmul prec emax x x).
Proof.
  destruct x as [[]|[]| |[] m e]; try done; apply binary_round_aux_sign_clear.
Qed.

Lemma SFadd_sign_clear prec emax x y :
  sign_clear x -> sign_clear y -> sign_clear (SFadd prec emax x y).
Proof.
  destruct x as [sx|sx| |sx mx ex], y as [sy|sy| |sy my ey]; simpl;
    intros; simplify_eq; try done.
  unfold binary_normalize. cbn [cond_Zopp Z.add].
  apply binary_round_sign_clear.
Qed.

Lemma SFsqrt_sign_clear prec emax x : sign_clear x -> sign_clear (SFsqrt prec emax x).
Proof.
  destruct x as [sx|sx| |sx mx ex]; simpl; intros; simplify_eq; try done.
  destruct (SFsqrt_core_binary prec emax (Z.pos mx) ex) as [[mz ez] lz].
  apply binary_round_aux_sign_clear.
Qed.

Lemma round_to_sign_clear prec emax x : sign_clear x -> sign_clear (round_to prec emax x).
Proof.
  destruct x as [sx|sx| |sx mx ex]; simpl; intros; simplify_eq; try done.
  apply binary_round_sign_clear.
Qed.

Lemma euclidian_dst_sign_clear p1 p2 : sign_clear (euclidian_dst p1 p2).
Proof.
  unfold euclidian_dst, float_of_double, dsqrt, dadd, dmul. cbv zeta.
  apply round_to_sign_clear, SFsqrt_sign_clear.
  repeat apply SFadd_sign_clear; apply SFmul_square_sign_clear.
Qed.

(** X5: the distance is never below zero and never the negative zero,
    whatever the coordinates: it is a value with a clear sign bit, or NaN. *)
Theorem euclidian_dst_not_negative p1 p2 :
  fltb (euclidian_dst p1 p2) fzero = false /\
  euclidian_dst p1 p2 <> S754_zero true.
Proof.
  pose proof (euclidian_dst_sign_clear p1 p2) as Hs.
  destruct (euclidian_dst p1 p2) as [s|s| |s m e]; simpl in Hs; subst; by split.
Qed.

Lemma dsub_same a : dsub a a = if is_finite a then dzero else S754_nan.
Proof.
  destruct a as [[]|[]| |s m e]; try done.
  unfold dsub, SFsub. by rewrite Z.sub_diag.
Qed.

(** X6: the distance of a point to itself is [+0] when its three
    coordinates are finite, and NaN otherwise. *)
Theorem euclidian_dst_same_point p :
  euclidian_dst p p = if finite_point p then fzero else S754_nan.
Proof.
  unfold euclidian_dst, finite_point. cbv zeta. rewrite !dsub_same.
  by destruct (is_finite (pt_x p)), (is_finite (pt_y p)), (is_finite (pt_z p)).
Qed.

(** ** The matching loop, continued *)

(** What one defined iteration of the matching loop does to the
    assignment and to the flags. *)
Lemma match_step_effect m vec used D vec' used' D' :
  match_inv m (vec, used, D) ->
  match_step (vec, used, D) = Some (vec', used', D') ->
  exists r c,
    findMinIDX D = Some (Z.of_nat r, Z.of_nat c) /\
    vec !! r = Some (-1) /\ (c < length used)%nat /\
    vec' = <[r := Z.of_nat c]> vec /\ used' = <[c := true]> used.
Proof.
  intros (Hnd & Hrange & Hlive) Hstep. unfold match_step in Hstep.
  apply bind_Some in Hstep as ([i j] & Hmin & Hstep). simpl in Hstep.
  apply bind_Some in Hstep as ([vec1 used1] & Hassign & Hstep).
  apply bind_Some in Hstep as (D1 & HD1 & Hstep).
  apply bind_Some in Hstep as (D2 & HD2 & Hstep). simplify_eq.
  destruct (negb (i =? -1)) eqn:Hi.
  2:{ apply negb_false_iff, Z.eqb_eq in Hi as ->. by unfold vec_set in HD1. }
  pose proof Hmin as Hmin'.
  apply findMinIDX_spec in Hmin' as [[-> _]|(r & c & row & v & -> & -> & Hr & Hc & Hv)];
    [done|].
  apply bind_Some in Hassign as (vec2 & Hvec & Hassign).
  apply bind_Some in Hassign as (used2 & Hused & Hassign). simplify_eq.
  apply vec_set_Some in Hvec as (_ & Hrlt & ->).
  apply vec_set_Some in Hused as (_ & Hclt & ->).
  rewrite Nat2Z.id in *.
  destruct (Hlive r c row v Hr Hc Hv) as (_ & _ & Hslot).
  destruct (lookup_lt_is_Some_2 vec r Hrlt) as [j0 Hj0].
  pose proof (Hslot _ Hj0) as ->.
  exists r, c. split_and!; try done; by rewrite ?Nat2Z.id in *.
Qed.

Lemma marked_insert vec used (r c : nat) :
  vec !! r = Some (-1) -> (c < length used)%nat ->
  marked (<[r := Z.of_nat c]> vec) used = <[c := true]> (marked vec used).
Proof.
  intros Hr Hc. pose proof (assigned_insert vec r (Z.of_nat c) Hr ltac:(lia)) as Hperm.
  apply list_eq. intros j. unfold marked. rewrite list_lookup_imap.
  destruct (decide (j = c)) as [->|Hne].
  - rewrite list_lookup_insert_eq by (by rewrite length_imap).
    destruct (lookup_lt_is_Some_2 used c Hc) as [b ->]. simpl.
    rewrite bool_decide_eq_true_2; [by rewrite orb_true_r|].
    rewrite Hperm. left.
  - rewrite list_lookup_insert_ne by done. rewrite list_lookup_imap.
    destruct (used !! j) as [b|]; [simpl|done]. do 2 f_equal.
    apply bool_decide_ext. rewrite Hperm, elem_of_cons. split; [|by right].
    intros [?|?]; [lia|done].
Qed.

Lemma marked_replicate n used : marked (replicate n (-1)) used = used.
Proof.
  unfold marked. rewrite assigned_replicate. apply list_eq. intros j.
  rewrite list_lookup_imap. destruct (used !! j) as [b|]; [simpl|done].
  by rewrite orb_false_r.
Qed.

(** The flags that [match_objID] leaves in the caller's array. *)
Lemma match_objID_marked n pred cCentres used vec used' :
  match_objID n pred cCentres used = Some (vec, used') -> used' = marked vec used.
Proof.
  unfold match_objID. intros Hrun.
  apply bind_Some in Hrun as ([[vec0 used0] D] & Hloop & ?). simplify_eq/=.
  refine (proj2 (for_each_counted (fun _ st =>
            match_inv (length cCentres) st /\
            snd (fst st) = marked (fst (fst st)) used) _ _ _ _ Hloop _ _)).
  - split; [apply match_inv_init|]. simpl. by rewrite marked_replicate.
  - intros k [[v1 u1] D1] [[v2 u2] D2] _ [Hinv Hu] Hstep. simpl in Hu. subst u1.
    split; [by destruct (match_step_inv _ _ _ Hinv Hstep)|]. simpl.
    destruct (match_step_effect _ _ _ _ _ _ _ Hinv Hstep)
      as (r & c & _ & Hr & Hc & -> & ->).
    unfold marked in Hc at 1. rewrite length_imap in Hc.
    by rewrite marked_insert.
Qed.

(** X7: [match_objID] sets the flag of every observation it assigns and
    leaves the other flags of the caller's array as they were: it never
    clears a flag, and a flag that it finds set stays set although the
    observation is not assigned. *)
Theorem match_objID_marks_assigned n pred cCentres used vec used' :
  match_objID n pred cCentres used = Some (vec, used') ->
  length used' = length used /\
  (forall j b, used !! j = Some b ->
     used' !! j = Some (b || bool_decide (Z.of_nat j ∈ assigned vec))) /\
  (forall j, used !! j = Some true -> used' !! j = Some true).
Proof.
  intros Hrun. apply match_objID_marked in Hrun as ->. unfold marked.
  split_and!; [by rewrite length_imap|..].
  - intros j b Hj. by rewrite list_lookup_imap, Hj.
  - intros j Hj. by rewrite list_lookup_imap, Hj.
Qed.

Lemma match_objID_marks_assigned_witness :
  length [true; true; false] = length [false; false; false] /\
  (forall j b, [false; false; false] !! j = Some b ->
     [true; true; false] !! j = Some (b || bool_decide (Z.of_nat j ∈ assigned [0; 1]))) /\
  (forall j, [false; false; false] !! j = Some true ->
             [true; true; false] !! j = Some true).
Proof.
  apply (match_objID_marks_assigned 2
           [Examples.point 10 10 0; Examples.point 0 0 0]
           [Examples.point 8 8 0; Examples.point 1 1 0; Examples.point 20 20 0]
           [false; false; false] [0; 1] [true; true; false]).
  vm_compute. reflexivity.
Defined.

Lemma filter_all_length {A} (P : A -> Prop) `{!forall x, Decision (P x)} (l : list A) :
  length (filter P l) = length l -> filter P l = l.
Proof.
  induction l as [|a l IH]; [done|]. rewrite list.filter_cons.
  pose proof (length_filter P l). destruct (decide (P a)); simpl; intros; [|lia].
  f_equal. apply IH. lia.
Qed.

(** X8: when the matching loop runs once per predicted point, as it does
    in [KFTrack], a returned assignment holds no sentinel: every slot gets
    the index of an observation, no two slots the same; with as many
    observations as slots, the assignment is a permutation of all of
    them. *)
Theorem match_objID_complete_assignment pred cCentres used vec used' :
  match_objID (length pred) pred cCentres used = Some (vec, used') ->
  Forall (fun j => 0 <= j < Z.of_nat (length cCentres)) vec /\
  NoDup vec /\
  (length cCentres = length pred -> vec ≡ₚ seqZ 0 (Z.of_nat (length cCentres))).
Proof.
  intros Hrun.
  destruct (match_objID_assignment _ _ _ _ _ _ Hrun) as (Hlen & Hcount & Hnd & Hrange).
  assert (assigned vec = vec) as Hall.
  { apply filter_all_length. change (length (assigned vec) = length vec).
    by rewrite Hcount, Hlen. }
  rewrite Hall in Hnd, Hrange. split_and!; [by apply list.Forall_forall|done|].
  intros Hsame. apply submseteq_length_Permutation.
  - apply NoDup_submseteq; [done|]. intros j Hj. apply elem_of_seqZ.
    specialize (Hrange j Hj). lia.
  - rewrite length_seqZ. lia.
Qed.

Lemma match_objID_complete_assignment_witness :
  Forall (fun j => 0 <= j < Z.of_nat (length [Examples.point 8 8 0; Examples.point 1 1 0]))
    [0; 1] /\
  NoDup [0; 1] /\
  (length [Examples.point 8 8 0; Examples.point 1 1 0] =
   length [Examples.point 10 10 0; Examples.point 0 0 0] ->
   [0; 1] ≡ₚ seqZ 0 (Z.of_nat (length [Examples.point 8 8 0; Examples.point 1 1 0]))).
Proof.
  apply (match_objID_complete_assignment
           [Examples.point 10 10 0; Examples.point 0 0 0]
           [Examples.point 8 8 0; Examples.point 1 1 0]
           [false; false] [0; 1] [true; true]).
  vm_compute. reflexivity.
Defined.

(** The first selection of the matching loop stays in the assignment to
    the end of the loop. *)
Lemma match_loop_first_selection n pred cCentres used st i j :
  for_each (fun st (_ : nat) => match_step st) (upto n)
    (replicate (length pred) (-1), used, dist_matrix pred cCentres) = Some st ->
  (0 < n)%nat ->
  findMinIDX (dist_matrix pred cCentres) = Some (i, j) ->
  vec_at (fst (fst st)) i = Some j /\ j <> -1.
Proof.
  intros Hloop Hn Hmin.
  refine (proj2 (proj2 (for_each_counted (fun k st =>
            match_inv (length cCentres) st /\
            (k = 0%nat ->
             st = (replicate (length pred) (-1), used, dist_matrix pred cCentres)) /\
            ((0 < k)%nat -> vec_at (fst (fst st)) i = Some j /\ j <> -1))
            _ _ _ _ Hloop _ _)) Hn).
  - split_and!; [apply match_inv_init|done|lia].
  - intros k [[v1 u1] D1] [[v2 u2] D2] _ (Hinv & Hfirst & Hkept) Hstep.
    split_and!; [by destruct (match_step_inv _ _ _ Hinv Hstep)|lia|]. intros _. simpl.
    destruct (match_step_effect _ _ _ _ _ _ _ Hinv Hstep)
      as (r & c & Hsel & Hr & Hc & -> & ->).
    destruct k as [|k].
    + specialize (Hfirst eq_refl). simplify_eq.
      split; [|lia].
      unfold vec_at. rewrite (proj2 (Z.leb_le 0 (Z.of_nat r))) by lia.
      rewrite Nat2Z.id.
      apply list_lookup_insert_eq. by eapply lookup_lt_Some.
    + destruct (Hkept ltac:(lia)) as [Hat Hj]. split; [|done].
      unfold vec_at in *. destruct (0 <=? i); [|done].
      rewrite list_lookup_insert_ne; [done|]. intros Heq. rewrite <- Heq in Hat.
      simpl in Hat. congruence.
Qed.

(** X9: the pair of a track and an observation that [findMinIDX] selects
    in the full matrix of distances, the nearest pair of the frame, is part
    of every returned assignment: a slot that has been assigned is not
    assigned again. *)
Theorem match_objID_keeps_nearest_pair n pred cCentres used vec used' i j :
  match_objID n pred cCentres used = Some (vec, used') ->
  (0 < n)%nat ->
  findMinIDX (dist_matrix pred cCentres) = Some (i, j) ->
  vec_at vec i = Some j /\ j <> -1.
Proof.
  unfold match_objID. intros Hrun Hn Hmin.
  apply bind_Some in Hrun as ([[vec0 used0] D] & Hloop & ?). simplify_eq/=.
  by apply (match_loop_first_selection n pred cCentres used (vec, used', D)).
Qed.

Lemma match_objID_keeps_nearest_pair_witness :
  vec_at [0; 1] 1 = Some 1 /\ 1 <> -1.
Proof.
  apply (match_objID_keeps_nearest_pair 2
           [Examples.point 10 10 0; Examples.point 0 0 0]
           [Examples.point 8 8 0; Examples.point 1 1 0]
           [false; false] [0; 1] [true; true] 1 1).
  - vm_compute. reflexivity.
  - lia.
  - vm_compute. reflexivity.
Defined.

Lemma erase_column_length col D D' :
  erase_column col D = Some D' -> length D' = length D.
Proof.
  unfold erase_column. intros Hrun.
  refine (for_each_counted (fun _ dm => length dm = length D) _ _ _ _ Hrun _ _); [done|].
  intros k dm dm' _ Hlen Hbody.
  apply bind_Some in Hbody as (row & _ & Hbody).
  apply bind_Some in Hbody as (row' & _ & ?). simplify_eq.
  by rewrite length_insert.
Qed.

(** Erasing a column of a matrix with one row. *)
Lemma erase_column_one_row col row :
  erase_column col [row] = row' ← vec_set row col FLT_MAX; Some [row'].
Proof.
  unfold erase_column. change (upto (length [row])) with [0%nat]. cbn [for_each].
  change ([row] !! 0%nat) with (Some row). cbn [mbind option_bind].
  by destruct (vec_set row col FLT_MAX).
Qed.

(** X10: with one track, [match_objID] gives it the observation that
    [findMinIDX] selects, the nearest one, when that observation is one of
    the first six; from the seventh observation on the call is out of range,
    because the row of the selection has been replaced by six entries
    before its column is erased. *)
Theorem match_objID_single_track p cCentres used (j : nat) :
  length used = length cCentres ->
  findMinIDX (dist_matrix [p] cCentres) = Some (0, Z.of_nat j) ->
  match_objID 1 [p] cCentres used =
    if (j <? 6)%nat then Some ([Z.of_nat j], <[j := true]> used) else None.
Proof.
  intros Hlen Hmin.
  assert (j < length used)%nat as Hj.
  { apply findMinIDX_spec in Hmin as [[? _]|(r & c & row & v & Hr & Hc & Hrow & Hv & _)];
      [done|].
    apply Nat2Z.inj in Hc as <-. destruct r; [|lia]. simpl in Hrow. simplify_eq.
    apply lookup_lt_Some in Hv. rewrite length_fmap in Hv. lia. }
  unfold match_objID. change (upto 1) with [0%nat]. cbn [for_each].
  unfold match_step. rewrite Hmin. cbn [mbind option_bind fst snd negb Z.eqb].
  unfold vec_set at 1 2 3. cbn [length replicate Z.leb Z.compare Z.ltb Z.of_nat
    Pos.of_succ_nat andb Z.to_nat insert list_insert dist_matrix fmap list_fmap].
  rewrite (proj2 (Z.leb_le 0 (Z.of_nat j))) by lia.
  rewrite (proj2 (Z.ltb_lt (Z.of_nat j) (Z.of_nat (length used)))) by lia.
  cbn [andb mbind option_bind]. rewrite Nat2Z.id.
  change (0 <? Z.of_nat 1) with true. change (Z.to_nat 0) with 0%nat.
  cbn [insert list_insert mbind option_bind]. rewrite erase_column_one_row.
  unfold vec_set. rewrite (proj2 (Z.leb_le 0 (Z.of_nat j))) by lia.
  change (Z.of_nat (length [FLT_MAX; FLT_MAX; FLT_MAX; FLT_MAX; FLT_MAX; FLT_MAX]))
    with 6.
  cbn [andb].
  destruct (j <? 6)%nat eqn:H6.
  - apply Nat.ltb_lt in H6. by rewrite (proj2 (Z.ltb_lt (Z.of_nat j) 6)) by lia.
  - apply Nat.ltb_ge in H6. by rewrite (proj2 (Z.ltb_ge (Z.of_nat j) 6)) by lia.
Qed.

Lemma match_objID_single_track_witness :
  match_objID 1 [Examples.point 0 0 0] [Examples.point 3 4 0; Examples.point 1 1 0]
    [false; false] =
  if (1 <? 6)%nat then Some ([Z.of_nat 1], <[1%nat := true]> [false; false]) else None.
Proof.
  apply (match_objID_single_track (Examples.point 0 0 0)
           [Examples.point 3 4 0; Examples.point 1 1 0] [false; false] 1).
  - reflexivity.
  - vm_compute. reflexivity.
Defined.

(** With seven observations and the nearest one last, the single track is
    not matched: the call is out of range. *)
Example match_objID_seventh_observation :
  match_objID 1 [Examples.point 0 0 0]
    (replicate 6 (Examples.point 9 9 0) ++ [Examples.point 1 1 0])
    (replicate 7 false) = None.
Proof. vm_compute. reflexivity. Qed.

(** X11: when the nearest pair of the frame involves track 0, there are
    two tracks or more, and fewer than six observations, [match_objID] is
    out of range: row 0 has been replaced by six entries, and the next scan
    of [findMinIDX] reads six columns of every row. *)
Theorem match_objID_row0_first_out_of_range n pred cCentres used j :
  findMinIDX (dist_matrix pred cCentres) = Some (0, j) ->
  (2 <= n)%nat -> (2 <= length pred)%nat -> (length cCentres < 6)%nat ->
  match_objID n pred cCentres used = None.
Proof.
  intros Hmin Hn Hpred Hm. unfold match_objID.
  destruct (for_each _ _ _) as [st|] eqn:Hloop; [exfalso|done].
  destruct n as [|[|n]]; [lia|lia|].
  change (upto (S (S n))) with (0%nat :: 1%nat :: seq 2 n) in Hloop.
  cbn [for_each] in Hloop.
  apply bind_Some in Hloop as ([[v1 u1] D1] & Hfirst & Hloop).
  apply bind_Some in Hloop as (st2 & Hsecond & _).
  (* the first iteration *)
  unfold match_step in Hfirst. rewrite Hmin in Hfirst.
  apply bind_Some in Hfirst as (ij & Hij & Hfirst). simplify_eq.
  apply bind_Some in Hfirst as ([v1' u1'] & _ & Hfirst).
  apply bind_Some in Hfirst as (Da & HDa & Hfirst).
  apply bind_Some in Hfirst as (Db & HDb & ?). simplify_eq.
  apply vec_set_Some in HDa as (_ & _ & ->). simpl in HDb.
  pose proof (erase_column_length _ _ _ HDb) as HlenD.
  rewrite length_insert in HlenD. unfold dist_matrix in HlenD at 1.
  rewrite length_fmap in HlenD.
  (* the second scan *)
  unfold match_step in Hsecond.
  apply bind_Some in Hsecond as (ij & Hscan & _).
  assert (is_Some (findMinIDX D1)) as Hdef by (by eexists).
  apply findMinIDX_defined_iff in Hdef.
  destruct D1 as [|row0 [|row1 D1]]; simpl in HlenD; [lia|lia|].
  destruct (erase_column_spec _ _ _ HDb 0%nat row0 eq_refl) as (ra & Hra & ->).
  destruct (erase_column_spec _ _ _ HDb 1%nat row1 eq_refl) as (rb & Hrb & ->).
  destruct pred as [|p0 [|p1 pred]]; simpl in Hpred; [lia|lia|].
  simpl in Hra, Hrb. simplify_eq.
  apply list.Forall_cons in Hdef as [_ Hdef].
  apply list.Forall_cons in Hdef as [Hrow1 _].
  simpl in Hrow1. rewrite !length_insert, length_fmap in Hrow1.
  change (length [FLT_MAX; FLT_MAX; FLT_MAX; FLT_MAX; FLT_MAX; FLT_MAX]) with 6%nat
    in Hrow1.
  lia.
Qed.

Lemma match_objID_row0_first_out_of_range_witness :
  match_objID 2 [Examples.point 0 0 0; Examples.point 10 10 0]
    [Examples.point 1 1 0; Examples.point 9 9 0] [false; false] = None.
Proof.
  apply (match_objID_row0_first_out_of_range 2
           [Examples.point 0 0 0; Examples.point 10 10 0]
           [Examples.point 1 1 0; Examples.point 9 9 0] [false; false] 0).
  - vm_compute. reflexivity.
  - lia.
  - simpl. lia.
  - simpl. lia.
Defined.

(** ** Completed cycles *)

Section Cycle.
Variable cv_predict : KalmanFilter -> KalmanFilter * list float.
Variable cv_correct : KalmanFilter -> list float -> KalmanFilter.

(** The phases of a completed call of [KFTrack]. *)
Lemma KFTrack_phases ccs_data uninit st st' :
  KFTrack cv_predict cv_correct ccs_data uninit st = Some st' ->
  exists fs pts cCentres ids used st1,
    predict_all cv_predict (k_filters_ st) = Some (fs, pts) /\
    centres_of_data ccs_data = Some cCentres /\
    match_objID (length (k_filters_ st)) pts cCentres
      (uninit <$> upto (length cCentres)) = Some (ids, used) /\
    reconcile cCentres used
      (mkClusterTracker ids fs (kf_prune_ctr_ st) (visualize_ st) (first_frame_ st))
      = Some st1 /\
    (visualize_ st1 = true -> is_Some (fit_markers cCentres (objID st1))) /\
    correct_all cv_correct (objID st1) cCentres (k_filters_ st1) = Some (k_filters_ st') /\
    objID st' = objID st1 /\ kf_prune_ctr_ st' = kf_prune_ctr_ st1 /\
    visualize_ st' = visualize_ st1 /\ first_frame_ st' = first_frame_ st1.
Proof.
  intros Hrun. unfold KFTrack in Hrun.
  apply bind_Some in Hrun as ([fs pts] & Hpred & Hrun).
  apply bind_Some in Hrun as (cCentres & Hdata & Hrun).
  apply bind_Some in Hrun as ([ids used] & Hmatch & Hrun).
  apply bind_Some in Hrun as (st1 & Hrec & Hrun).
  apply bind_Some in Hrun as (? & Hfit & Hrun).
  apply bind_Some in Hrun as (fs' & Hcorr & Hrun). simplify_eq/=.
  exists fs, pts, cCentres, ids, used, st1. split_and!; try done.
  intros Hvis. rewrite Hvis in Hfit. by eexists.
Qed.

(** A reconciliation with at most as many tracks as centres keeps the
    assignment and the counter, and extends the bank by the difference. *)
Lemma reconcile_not_more_tracks cCentres used st st1 :
  (length (objID st) <= length cCentres)%nat ->
  reconcile cCentres used st = Some st1 ->
  objID st1 = objID st /\ kf_prune_ctr_ st1 = kf_prune_ctr_ st /\
  visualize_ st1 = visualize_ st /\ first_frame_ st1 = first_frame_ st /\
  length (k_filters_ st1) =
    (length (k_filters_ st) + (length cCentres - length (objID st)))%nat.
Proof.
  intros Hle Hrec. unfold reconcile in Hrec.
  destruct (length (objID st) <? length cCentres)%nat eqn:Hcmp.
  - apply bind_Some in Hrec as (fs1 & Hseed & ?). simplify_eq/=.
    apply seed_new_filters_length in Hseed. rewrite _init_KFilters_length in Hseed.
    by split_and!.
  - apply Nat.ltb_ge in Hcmp.
    rewrite (proj2 (Nat.ltb_ge (length cCentres) (length (objID st)))) in Hrec by done.
    simplify_eq. split_and!; try done. lia.
Qed.

(** X12: a call of [KFTrack] that stays within defined behaviour had at
    most as many tracks as the frame has centres; it leaves every track
    with the index of a centre of its own, one filter per centre, and the
    prune counter and the flags [visualize_] and [first_frame_] untouched:
    the pruning branch is not part of any defined cycle. *)
Theorem KFTrack_completed_cycle ccs_data uninit st st' :
  KFTrack cv_predict cv_correct ccs_data uninit st = Some st' ->
  exists cCentres,
    centres_of_data ccs_data = Some cCentres /\
    (length (k_filters_ st) <= length cCentres)%nat /\
    length (k_filters_ st') = length cCentres /\
    length (objID st') = length (k_filters_ st) /\
    Forall (fun j => 0 <= j < Z.of_nat (length cCentres)) (objID st') /\
    NoDup (objID st') /\
    kf_prune_ctr_ st' = kf_prune_ctr_ st /\
    visualize_ st' = visualize_ st /\ first_frame_ st' = first_frame_ st.
Proof.
  intros Hrun.
  apply KFTrack_phases in Hrun
    as (fs & pts & cCentres & ids & used & st1 & Hpred & Hdata & Hmatch & Hrec & _ &
        Hcorr & -> & -> & -> & ->).
  apply predict_all_length in Hpred as [Hfs Hpts].
  destruct (match_objID_assignment _ _ _ _ _ _ Hmatch) as (Hlen & Hcount & Hnd & Hrange).
  assert (assigned ids = ids) as Hall.
  { apply filter_all_length. change (length (assigned ids) = length ids).
    by rewrite Hcount, Hlen. }
  rewrite Hall in Hnd, Hrange.
  pose proof (NoDup_bounded_length _ _ Hnd Hrange) as Hle.
  apply reconcile_not_more_tracks in Hrec as (-> & -> & -> & -> & Hbank); [|done].
  apply correct_all_length in Hcorr. simpl in *.
  exists cCentres. split_and!; try done; try lia.
  by apply list.Forall_forall.
Qed.

(** A first frame. *)
Lemma cloudCallback_first_frame clusters uninit st st' :
  first_frame_ st = true ->
  cloudCallback cv_predict cv_correct clusters uninit st = Some st' ->
  first_frame_ st' = false /\ kf_prune_ctr_ st' = kf_prune_ctr_ st /\
  visualize_ st' = visualize_ st /\
  length (k_filters_ st') = (length (k_filters_ st) + length clusters)%nat.
Proof.
  intros Hff Hrun. unfold cloudCallback in Hrun. rewrite Hff in Hrun.
  apply bind_Some in Hrun as (fs & Hseed & ?). simplify_eq/=. split_and!; try done.
  unfold seed_first_frame in Hseed.
  rewrite <- (_init_KFilters_length (length clusters) (k_filters_ st)).
  refine (for_each_invariant (fun s => length s = length (_init_KFilters _ _))
            _ _ _ _ Hseed _ _); [done|].
  intros fs0 i fs1 _ Hlen Hbody.
  apply bind_Some in Hbody as (c & _ & Hbody).
  apply bind_Some in Hbody as (f & _ & Hbody).
  apply bind_Some in Hbody as (f' & _ & ?). simplify_eq.
  by rewrite length_insert.
Qed.

(** A later frame. *)
Lemma cloudCallback_later_frame clusters uninit st st' :
  first_frame_ st = false ->
  cloudCallback cv_predict cv_correct clusters uninit st = Some st' ->
  first_frame_ st' = false /\ kf_prune_ctr_ st' = kf_prune_ctr_ st /\
  visualize_ st' = visualize_ st /\
  (length (k_filters_ st) <= length clusters)%nat /\
  length (k_filters_ st') = length clusters.
Proof.
  intros Hff Hrun. unfold cloudCallback in Hrun. rewrite Hff in Hrun.
  apply KFTrack_phases in Hrun
    as (fs & pts & cCentres & ids & used & st1 & Hpred & Hdata & Hmatch & Hrec & _ &
        Hcorr & _ & -> & -> & ->).
  rewrite centres_of_centres_data in Hdata. simplify_eq.
  rewrite !length_fmap in *.
  apply predict_all_length in Hpred as [Hfs Hpts].
  destruct (match_objID_assignment _ _ _ _ _ _ Hmatch) as (Hlen & Hcount & Hnd & Hrange).
  rewrite !length_fmap in Hrange. 
  assert (length ids <= length clusters)%nat as Hle.
  { rewrite Hlen, Hpts, <- Hcount. by apply NoDup_bounded_length. }
  apply reconcile_not_more_tracks in Hrec as (_ & -> & -> & -> & Hbank);
    [|by rewrite !length_fmap].
  rewrite !length_fmap in Hbank.
  apply correct_all_length in Hcorr. simpl in *. split_and!; try done; lia.
Qed.

(** X13: the callbacks of a sequence of frames, starting from the
    constructed tracker, stay within defined behaviour only if no frame has
    fewer clusters than the frame before it; the tracker then has one filter
    per cluster of the last frame, and its prune counter is still zero. *)
Theorem cloud_frames_never_fewer_clusters visualize frames st' :
  cloud_frames cv_predict cv_correct frames (ClusterTracker_new visualize) = Some st' ->
  frames <> [] ->
  (forall i a b, frames !! i = Some a -> frames !! S i = Some b ->
     (length (fst a) <= length (fst b))%nat) /\
  (exists a, list.last frames = Some a /\ length (k_filters_ st') = length (fst a)) /\
  first_frame_ st' = false /\ kf_prune_ctr_ st' = 0 /\ visualize_ st' = visualize.
Proof.
  assert (forall frames st st' a,
            first_frame_ st = false -> length (k_filters_ st) = length (fst a) ->
            cloud_frames cv_predict cv_correct frames st = Some st' ->
            (forall i x y, (a :: frames) !! i = Some x -> (a :: frames) !! S i = Some y ->
               (length (fst x) <= length (fst y))%nat) /\
            (exists b, list.last (a :: frames) = Some b /\
               length (k_filters_ st') = length (fst b)) /\
            first_frame_ st' = false /\ kf_prune_ctr_ st' = kf_prune_ctr_ st /\
            visualize_ st' = visualize_ st) as Hlater.
  { clear. induction frames as [|b frames IH]; intros st st' a Hff Hbank Hrun.
    - unfold cloud_frames in Hrun. simpl in Hrun. simplify_eq.
      split_and!; try done; try (by intros [|i] x y Hx Hy). exists a. by split.
    - unfold cloud_frames in Hrun. cbn [for_each] in Hrun.
      apply bind_Some in Hrun as (st1 & Hstep & Hrun).
      apply cloudCallback_later_frame in Hstep as (Hff1 & Hctr & Hvis & Hle & Hbank1);
        [|done].
      destruct (IH st1 st' b Hff1 Hbank1 Hrun) as (Hmono & (c & Hlast & Hc) & ? & ? & ?).
      split_and!; try congruence.
      + intros [|i] x y Hx Hy; simplify_eq/=; [lia|]. by apply (Hmono i).
      + exists c. split; [|done]. by rewrite last_cons_cons. }
  intros Hrun Hne. destruct frames as [|a frames]; [done|].
  unfold cloud_frames in Hrun. cbn [for_each] in Hrun.
  apply bind_Some in Hrun as (st1 & Hstep & Hrun).
  apply cloudCallback_first_frame in Hstep as (Hff1 & Hctr & Hvis & Hbank1); [|done].
  destruct (Hlater frames st1 st' a Hff1 Hbank1 Hrun) as (? & ? & ? & ? & ?).
  simpl in Hctr, Hvis. split_and!; try done; congruence.
Qed.

End Cycle.

Lemma KFTrack_completed_cycle_witness :
  exists st',
    KFTrack OpenCV.predict OpenCV.correct (Examples.message [(1, 1); (5, 5)])
      (fun _ => false) Examples.one_track = Some st' /\
    exists cCentres,
      centres_of_data (Examples.message [(1, 1); (5, 5)]) = Some cCentres /\
      (length (k_filters_ Examples.one_track) <= length cCentres)%nat /\
      length (k_filters_ st') = length cCentres /\
      length (objID st') = length (k_filters_ Examples.one_track) /\
      Forall (fun j => 0 <= j < Z.of_nat (length cCentres)) (objID st') /\
      NoDup (objID st') /\
      kf_prune_ctr_ st' = kf_prune_ctr_ Examples.one_track /\
      visualize_ st' = visualize_ Examples.one_track /\
      first_frame_ st' = first_frame_ Examples.one_track.
Proof.
  destruct (KFTrack OpenCV.predict OpenCV.correct (Examples.message [(1, 1); (5, 5)])
              (fun _ => false) Examples.one_track) as [st'|] eqn:Hrun;
    [|vm_compute in Hrun; discriminate Hrun].
  exists st'. split; [reflexivity|].
  apply (KFTrack_completed_cycle OpenCV.predict OpenCV.correct
           (Examples.message [(1, 1); (5, 5)]) (fun _ => false) Examples.one_track st').
  exact Hrun.
Defined.

Lemma cloud_frames_never_fewer_clusters_witness :
  exists st',
    cloud_frames OpenCV.predict OpenCV.correct
      [([OpenCV.single 1 1], fun _ => false);
       ([OpenCV.single 1 1; OpenCV.single 5 5], fun _ => false)]
      (ClusterTracker_new true) = Some st' /\
    length (k_filters_ st') = 2%nat /\ kf_prune_ctr_ st' = 0.
Proof.
  destruct (cloud_frames OpenCV.predict OpenCV.correct
              [([OpenCV.single 1 1], fun _ => false);
               ([OpenCV.single 1 1; OpenCV.single 5 5], fun _ => false)]
              (ClusterTracker_new true)) as [st'|] eqn:Hrun;
    [|vm_compute in Hrun; discriminate Hrun].
  exists st'. split; [reflexivity|].
  destruct (cloud_frames_never_fewer_clusters OpenCV.predict OpenCV.correct true
              [([OpenCV.single 1 1], fun _ => false);
               ([OpenCV.single 1 1; OpenCV.single 5 5], fun _ => false)] st')
    as (_ & (a & Hlast & Hbank) & _ & Hctr & _).
  - exact Hrun.
  - discriminate.
  - split; [|exact Hctr]. rewrite Hbank.
    cbn [list.last] in Hlast. injection Hlast as <-. reflexivity.
Defined.

(** A frame with fewer clusters than the frame before it: the callback has
    no defined result. *)
Example cloud_frames_fewer_clusters :
  cloud_frames OpenCV.predict OpenCV.correct
    [([OpenCV.single 1 1; OpenCV.single 5 5], fun _ => false);
     ([OpenCV.single 1 1], fun _ => false)]
    (ClusterTracker_new true) = None.
Proof. vm_compute. reflexivity. Qed.

(** ** The creation loop *)

(** What the creation loop writes. *)
Lemma seed_new_filters_written diff cCentres cluster_used fs fs' :
  seed_new_filters diff cCentres cluster_used fs = Some fs' ->
  length fs' = length fs /\
  (forall r c, unmatched_centres cCentres cluster_used !! r = Some c ->
     exists f, fs !! (diff + r)%nat = Some f /\
       fs' !! (diff + r)%nat =
         seed_statePre (float_of_double (pt_x c)) (float_of_double (pt_y c)) f) /\
  (forall k, (k < diff \/ diff + length (unmatched_centres cCentres cluster_used) <= k)%nat ->
     fs' !! k = fs !! k).
Proof.
  unfold seed_new_filters. intros Hrun.
  apply bind_Some in Hrun as ([fs1 skipped] & Hloop & ?). simplify_eq/=.
  set (U := fun k : nat =>
         fst <$> filter (fun p : Point * bool => snd p = false)
                   (take k (zip cCentres cluster_used))).
  assert (unmatched_centres cCentres cluster_used = U (length cCentres)) as ->.
  { unfold unmatched_centres, U. rewrite take_ge; [done|].
    rewrite length_zip_with. lia. }
  refine (proj2 (for_each_counted (fun k s =>
            (snd s + length (U k) = k)%nat /\
            length (fst s) = length fs /\
            (forall r c, U k !! r = Some c ->
               exists f, fs !! (diff + r)%nat = Some f /\
                 fst s !! (diff + r)%nat =
                   seed_statePre (float_of_double (pt_x c)) (float_of_double (pt_y c)) f) /\
            (forall j, (j < diff \/ diff + length (U k) <= j)%nat -> fst s !! j = fs !! j))
            _ _ _ _ Hloop _ _)).
  - by split_and!.
  - intros k [fs0 sk] [fs2 sk'] Hk (Hsk & Hlen & Hseeded & Hrest) Hbody. simpl in *.
    apply bind_Some in Hbody as (u & Hu & Hbody).
    destruct (lookup_lt_is_Some_2 cCentres k Hk) as [c Hc].
    assert (U (S k) = U k ++ (if u then [] else [c])) as HU.
    { unfold U. rewrite (take_S_r _ _ (c, u)).
      - rewrite list.filter_app, fmap_app. f_equal.
        rewrite list.filter_cons. simpl. by destruct u.
      - by apply lookup_zip_Some. }
    rewrite HU. destruct u; simpl in Hbody.
    + injection Hbody as <- <-. simpl.
      rewrite app_nil_r. split_and!; [lia|done..].
    + apply bind_Some in Hbody as (c' & Hc' & Hbody).
      apply bind_Some in Hbody as (f & Hf & Hbody).
      apply bind_Some in Hbody as (f' & Hf' & [= <- <-]).
      assert (c' = c) as -> by congruence. simpl.
      replace (k + diff - sk)%nat with (diff + length (U k))%nat in * by lia.
      rewrite length_app. simpl. split_and!; [lia|by rewrite length_insert| |].
      * intros r c0 Hr. apply lookup_app_Some in Hr as [Hr|[Hge Hr]].
        -- destruct (Hseeded r c0 Hr) as (f0 & ? & ?). exists f0. split; [done|].
           apply lookup_lt_Some in Hr. by rewrite list_lookup_insert_ne by lia.
        -- destruct (r - length (U k))%nat as [|?] eqn:Hd; simplify_eq/=.
           replace r with (length (U k)) by lia. exists f. split.
           ++ rewrite <- Hrest; [done|lia].
           ++ rewrite list_lookup_insert_eq; [done|by eapply lookup_lt_Some].
      * intros j Hj. rewrite list_lookup_insert_ne by lia. apply Hrest. lia.
Qed.

(** X14: the creation loop writes the [r]-th centre whose flag is clear
    into slot [diff + r] of the bank, where [diff] is the number of filters
    just pushed, and changes no other slot; the loop is out of range unless
    the bank holds a slot [diff + r] for each of these centres. The seeded
    slots are the new ones only when the bank held [diff] filters before. *)
Theorem seed_new_filters_slots diff cCentres cluster_used fs fs' :
  seed_new_filters diff cCentres cluster_used fs = Some fs' ->
  (unmatched_centres cCentres cluster_used = [] \/
   diff + length (unmatched_centres cCentres cluster_used) <= length fs)%nat /\
  (forall r c, unmatched_centres cCentres cluster_used !! r = Some c ->
     exists f, fs !! (diff + r)%nat = Some f /\
       fs' !! (diff + r)%nat =
         seed_statePre (float_of_double (pt_x c)) (float_of_double (pt_y c)) f) /\
  (forall k, (k < diff \/ diff + length (unmatched_centres cCentres cluster_used) <= k)%nat ->
     fs' !! k = fs !! k).
Proof.
  intros Hrun. destruct (seed_new_filters_written _ _ _ _ _ Hrun) as (_ & Hw & Hk).
  split_and!; [|done..].
  destruct (unmatched_centres cCentres cluster_used) as [|c0 U _] using rev_ind;
    [by left|right].
  destruct (Hw (length U) c0) as (f & Hf & _).
  { by rewrite lookup_app_r, Nat.sub_diag by done. }
  apply lookup_lt_Some in Hf. rewrite length_app. simpl. lia.
Qed.

Lemma seed_new_filters_slots_witness :
  (unmatched_centres [Examples.point 1 1 0; Examples.point 5 5 0; Examples.point 9 9 0]
     [true; true; false] = [] \/
   1 + length (unmatched_centres
                 [Examples.point 1 1 0; Examples.point 5 5 0; Examples.point 9 9 0]
                 [true; true; false]) <=
   length [Examples.track_A; Examples.track_B; init_filter])%nat /\
  (forall r c,
     unmatched_centres [Examples.point 1 1 0; Examples.point 5 5 0; Examples.point 9 9 0]
       [true; true; false] !! r = Some c ->
     exists f,
       [Examples.track_A; Examples.track_B; init_filter] !! (1 + r)%nat = Some f /\
       [Examples.track_A; set_statePre (Examples.state 9 9 0 0) Examples.track_B;
        init_filter] !! (1 + r)%nat =
         seed_statePre (float_of_double (pt_x c)) (float_of_double (pt_y c)) f) /\
  (forall k,
     (k < 1 \/
      1 + length (unmatched_centres
                    [Examples.point 1 1 0; Examples.point 5 5 0; Examples.point 9 9 0]
                    [true; true; false]) <= k)%nat ->
     [Examples.track_A; set_statePre (Examples.state 9 9 0 0) Examples.track_B;
      init_filter] !! k =
     [Examples.track_A; Examples.track_B; init_filter] !! k).
Proof.
  apply (seed_new_filters_slots 1
           [Examples.point 1 1 0; Examples.point 5 5 0; Examples.point 9 9 0]
           [true; true; false]
           [Examples.track_A; Examples.track_B; init_filter]).
  vm_compute. reflexivity.
Defined.

(** ** Bounds of the correction, of the data and of the markers *)

(** A loop whose body is undefined at one of the values of its variable,
    whatever the state, is undefined. *)
Lemma for_each_stuck {S A} (body : S -> A -> option S) xs a :
  a ∈ xs -> (forall s, body s a = None) -> forall s, for_each body xs s = None.
Proof.
  intros Hin Hbody. induction xs as [|x xs IH]; intros s; [by apply elem_of_nil in Hin|].
  simpl. apply elem_of_cons in Hin as [<-|Hin]; [by rewrite Hbody|].
  destruct (body s x); [by apply IH|done].
Qed.

Section CorrectionRange.
Variable cv_correct : KalmanFilter -> list float -> KalmanFilter.

(** X15: the correction loop reads [cCentres[objCopy[i]]] for every slot
    before it tests anything: one slot holding the sentinel [-1], or any
    index that is not the index of a centre, makes the whole phase leave the
    bounds of [cCentres]. *)
Theorem correct_all_slot_out_of_range objCopy cCentres fs i id :
  objCopy !! i = Some id ->
  ~ (0 <= id < Z.of_nat (length cCentres)) ->
  correct_all cv_correct objCopy cCentres fs = None.
Proof.
  intros Hi Hid. unfold correct_all. apply (for_each_stuck _ _ i).
  - apply elem_of_seq. apply lookup_lt_Some in Hi. lia.
  - intros s. rewrite Hi. simpl. unfold vec_at.
    destruct (0 <=? id) eqn:H0; [|done].
    apply Z.leb_le in H0. rewrite (proj2 (lookup_ge_None cCentres (Z.to_nat id))); [done|lia].
Qed.
End CorrectionRange.

Lemma correct_all_slot_out_of_range_witness :
  correct_all OpenCV.correct [0; -1] [Examples.point 3 4 0]
    [Examples.predicted_track; Examples.predicted_track] = None.
Proof.
  apply (correct_all_slot_out_of_range OpenCV.correct [0; -1] [Examples.point 3 4 0]
           [Examples.predicted_track; Examples.predicted_track] 1 (-1)).
  - reflexivity.
  - cbn [length]. lia.
Defined.

Lemma centres_of_data_length data : forall cs,
  centres_of_data data = Some cs -> length data = (3 * length cs)%nat.
Proof.
  assert (forall n data cs, (length data <= n)%nat ->
            centres_of_data data = Some cs -> length data = (3 * length cs)%nat) as Hn.
  { clear. induction n as [|n IH]; intros data cs Hlen Hrun.
    - destruct data; [|simpl in Hlen; lia]. by simplify_eq/=.
    - destruct data as [|a [|b [|c rest]]]; simplify_eq/=; [done|].
      apply bind_Some in Hrun as (cs' & Hrest & ?). simplify_eq/=.
      rewrite (IH rest cs'); [lia|lia|done]. }
  intros cs. by apply (Hn (length data)).
Qed.

Lemma centres_of_data_total n : forall data,
  length data = (3 * n)%nat -> is_Some (centres_of_data data).
Proof.
  induction n as [|n IH]; intros data Hlen.
  - destruct data; [by eexists|simpl in Hlen; lia].
  - destruct data as [|a [|b [|c rest]]]; simpl in Hlen; try lia.
    destruct (IH rest) as [cs Hcs]; [lia|]. simpl. rewrite Hcs. by eexists.
Qed.

(** X16: the loop that reads [ccs.data] three values at a time stays
    within the data exactly when their number is a multiple of three, and
    then yields one centre per group of three. *)
Theorem centres_of_data_groups_of_three data :
  (is_Some (centres_of_data data) <-> (length data mod 3 = 0)%nat) /\
  (forall cs, centres_of_data data = Some cs -> length data = (3 * length cs)%nat).
Proof.
  split; [|apply centres_of_data_length]. split.
  - intros [cs Hcs]. apply centres_of_data_length in Hcs. rewrite Hcs.
    by rewrite Nat.mul_comm, Nat.Div0.mod_mul.
  - intros Hmod. apply (centres_of_data_total (length data / 3)).
    pose proof (Nat.div_mod_eq (length data) 3). lia.
Qed.

(** X17: [fit_markers] reads [pts[i]] for every index of [IDs]: it stays
    within [pts] exactly when [IDs] is not longer than [pts]; the entries of
    [IDs] are not read. *)
Theorem fit_markers_in_range pts IDs :
  is_Some (fit_markers pts IDs) <-> (length IDs <= length pts)%nat.
Proof.
  unfold fit_markers. split.
  - intros [[] Hrun].
    refine (for_each_counted (fun k _ => (k <= length pts)%nat) _ _ _ _ Hrun _ _); [lia|].
    intros k [] [] _ _ Hbody. apply bind_Some in Hbody as (p & Hp & _).
    apply lookup_lt_Some in Hp. lia.
  - intros Hle.
    destruct (for_each_counted_total (fun _ (_ : unit) => True)
                (fun _ i => _ ← pts !! i; Some tt) (length IDs) tt) as (u & Hrun & _);
      [done| |by exists u].
    intros k [] Hk _. destruct (lookup_lt_is_Some_2 pts k ltac:(lia)) as [p ->].
    by exists tt.
Qed.

(** ** The cluster publishers *)

(** The popping loop ends, with the publishers beyond [num_clusters]
    gone. *)
Lemma pop_surplus_take fuel num_clusters pubs :
  (length pubs <= fuel)%nat -> pop_surplus fuel num_clusters pubs = take num_clusters pubs.
Proof.
  revert pubs. induction fuel as [|fuel IH]; intros pubs Hfuel; simpl.
  - destruct pubs; [by rewrite take_nil|simpl in Hfuel; lia].
  - destruct (num_clusters <? length pubs)%nat eqn:Hcmp.
    + apply Nat.ltb_lt in Hcmp.
      destruct pubs as [|x pubs' _] using rev_ind; [simpl in Hcmp; lia|].
      rewrite removelast_last. rewrite length_app in Hfuel, Hcmp. simpl in Hfuel, Hcmp.
      rewrite IH by lia. by rewrite take_app_le by lia.
    + apply Nat.ltb_ge in Hcmp. by rewrite take_ge.
Qed.

Lemma advertise_missing_unfold outcomes num_clusters pubs :
  advertise_missing outcomes num_clusters pubs =
    if (length pubs <? num_clusters)%nat
    then match outcomes with
         | [] => None
         | true :: outcomes' =>
             advertise_missing outcomes' num_clusters (pubs ++ [length pubs])
         | false :: outcomes' => advertise_missing outcomes' num_clusters pubs
         end
    else Some pubs.
Proof. by destruct outcomes. Qed.

(** When the advertising loop ends, it has pushed the publishers of the
    topics numbered from the former size up to [num_clusters]. *)
Lemma advertise_missing_Some outcomes num_clusters : forall pubs pubs',
  advertise_missing outcomes num_clusters pubs = Some pubs' ->
  pubs' = pubs ++ seq (length pubs) (num_clusters - length pubs).
Proof.
  induction outcomes as [|o outcomes IH]; intros pubs pubs';
    rewrite advertise_missing_unfold;
    destruct (length pubs <? num_clusters)%nat eqn:Hcmp;
    try (apply Nat.ltb_ge in Hcmp; intros [= <-];
         replace (num_clusters - length pubs)%nat with 0%nat by lia;
         by rewrite app_nil_r).
  - done.
  - apply Nat.ltb_lt in Hcmp. destruct o; intros Hrun; [|by apply IH].
    apply IH in Hrun as ->. rewrite length_app. simpl.
    replace (num_clusters - length pubs)%nat
      with (S (num_clusters - (length pubs + 1)))%nat by lia.
    simpl. rewrite <- app_assoc. simpl. do 3 f_equal. lia.
Qed.

(** The advertising loop ends exactly when enough attempts succeed. *)
Lemma advertise_missing_is_Some outcomes num_clusters : forall pubs,
  is_Some (advertise_missing outcomes num_clusters pubs) <->
  (num_clusters - length pubs <= length (filter (fun o => o = true) outcomes))%nat.
Proof.
  induction outcomes as [|o outcomes IH]; intros pubs;
    rewrite advertise_missing_unfold;
    destruct (length pubs <? num_clusters)%nat eqn:Hcmp;
    try (apply Nat.ltb_ge in Hcmp; split; [lia|by eexists]).
  - apply Nat.ltb_lt in Hcmp. simpl. split; [by intros [? ?]|lia].
  - apply Nat.ltb_lt in Hcmp. rewrite list.filter_cons.
    destruct o; simpl.
    + rewrite IH, length_app. simpl. lia.
    + by rewrite IH.
Qed.

Lemma pop_surplus_if (c : bool) num_clusters pubs :
  length (if c then pop_surplus (length pubs) num_clusters pubs else pubs) =
    (if c then Nat.min num_clusters (length pubs) else length pubs).
Proof.
  destruct c; [|done]. by rewrite pop_surplus_take, length_take by done.
Qed.

(** X18: when [sync_cluster_publishers_size] returns, [cluster_pubs_]
    holds at least [num_clusters] publishers, so that the publishing loop of
    [cloudCallback] stays within it: exactly [num_clusters] after a
    cleaning, the larger of [num_clusters] and the former size otherwise.
    The publishers below [num_clusters] are kept, and if every publisher sat
    on the topic numbered by its position, this is still so. *)
Theorem sync_cluster_publishers_size_result r outcomes num_clusters pubs pubs' :
  sync_cluster_publishers_size r outcomes num_clusters pubs = Some pubs' ->
  (num_clusters <= length pubs')%nat /\
  length pubs' =
    (if cleaning_due r then num_clusters else Nat.max num_clusters (length pubs)) /\
  (forall i k, (i < num_clusters)%nat -> pubs !! i = Some k -> pubs' !! i = Some k) /\
  (pubs = seq 0 (length pubs) -> pubs' = seq 0 (length pubs')).
Proof.
  unfold sync_cluster_publishers_size. intros Hrun.
  apply advertise_missing_Some in Hrun.
  pose proof (pop_surplus_if (cleaning_due r) num_clusters pubs) as Hlen.
  assert (forall i k, (i < num_clusters)%nat -> pubs !! i = Some k ->
            (if cleaning_due r then pop_surplus (length pubs) num_clusters pubs else pubs)
              !! i = Some k) as Hkept.
  { intros i k Hi Hk. destruct (cleaning_due r); [|done].
    rewrite pop_surplus_take by done. by rewrite lookup_take_lt. }
  assert (pubs = seq 0 (length pubs) ->
          (if cleaning_due r then pop_surplus (length pubs) num_clusters pubs else pubs) =
            seq 0 (length (if cleaning_due r
                           then pop_surplus (length pubs) num_clusters pubs else pubs)))
    as Hseq.
  { intros Hnum. destruct (cleaning_due r); [|done].
    rewrite pop_surplus_take by done. rewrite length_take.
    rewrite Hnum at 1. by rewrite take_seq. }
  revert Hrun Hlen Hkept Hseq.
  generalize (if cleaning_due r then pop_surplus (length pubs) num_clusters pubs else pubs).
  intros pubs1 -> Hlen Hkept Hseq.
  rewrite !length_app, !length_seq, Hlen.
  split_and!.
  - destruct (cleaning_due r); lia.
  - destruct (cleaning_due r); lia.
  - intros i k Hi Hk. apply lookup_app_l_Some. by apply Hkept.
  - intros Hnum. rewrite (Hseq Hnum) at 1. rewrite <- Hlen.
    by rewrite <- seq_app.
Qed.

Lemma sync_cluster_publishers_size_result_witness :
  (2 <= length [0; 1])%nat /\
  length [0; 1]%nat =
    (if cleaning_due 0 then 2%nat else Nat.max 2 (length (@nil nat))) /\
  (forall i k, (i < 2)%nat -> @nil nat !! i = Some k -> [0; 1]%nat !! i = Some k) /\
  (@nil nat = seq 0 (length (@nil nat)) -> [0; 1]%nat = seq 0 (length [0; 1]%nat)).
Proof.
  apply (sync_cluster_publishers_size_result 0 [true; false; true] 2 [] [0; 1]%nat).
  vm_compute. reflexivity.
Defined.

(** X19: [sync_cluster_publishers_size] returns exactly when the attempts
    to advertise that succeed are at least as many as the publishers
    missing; as long as [advertise] throws, the call stays in its loop. *)
Theorem sync_cluster_publishers_size_returns r outcomes num_clusters pubs :
  is_Some (sync_cluster_publishers_size r outcomes num_clusters pubs) <->
  (num_clusters - length pubs <= length (filter (fun o => o = true) outcomes))%nat.
Proof.
  unfold sync_cluster_publishers_size.
  rewrite advertise_missing_is_Some, pop_surplus_if.
  destruct (cleaning_due r); lia.
Qed.

(** Values of [rand()] at the two ends of its range. *)
Example cleaning_due_ends : cleaning_due 0 = false /\ cleaning_due RAND_MAX = true.
Proof. split; vm_compute; reflexivity. Qed.

(** ** The balance of locks *)

Module LockBalanceProperties.
Import Locking LockBalance.

(** A step of the machine keeps, for every thread and every mutex, the sum
    of what the thread still releases beyond what it acquires, less what it
    holds. *)
Lemma step_balance m t c c' label :
  step t c = Some (c', label) ->
  forall t' rest', cfg_threads c' !! t' = Some rest' ->
    exists rest, cfg_threads c !! t' = Some rest /\
      surplus m rest' - depth_held m t' (cfg_locks c') =
      surplus m rest - depth_held m t' (cfg_locks c).
Proof.
  unfold step. intros Hstep t' rest' Hrest'.
  destruct (cfg_threads c !! t) as [[|e rest]|] eqn:Ht; [done| |done].
  assert (forall l, c' = mkConfig l (<[t := rest]> (cfg_threads c)) ->
            (t' = t -> surplus m rest - depth_held m t l =
                       surplus m (e :: rest) - depth_held m t (cfg_locks c)) ->
            (t' <> t -> depth_held m t' l = depth_held m t' (cfg_locks c)) ->
            exists rest0, cfg_threads c !! t' = Some rest0 /\
              surplus m rest' - depth_held m t' (cfg_locks c') =
              surplus m rest0 - depth_held m t' (cfg_locks c)) as Hcase.
  { intros l -> Hsame Hother. simpl in *.
    destruct (decide (t' = t)) as [->|Hne].
    - rewrite list_lookup_insert_eq in Hrest' by (by eapply lookup_lt_Some).
      assert (rest' = rest) as -> by congruence.
      exists (e :: rest). split; [done|]. by apply Hsame.
    - rewrite list_lookup_insert_ne in Hrest' by done.
      exists rest'. split; [done|]. by rewrite Hother. }
  destruct e as [m0|m0|p].
  - (* Lock *)
    destruct (cfg_locks c m0) as [[t0 d]|] eqn:Hm0.
    + destruct ((t0 =? t)%nat && recursive m0) eqn:Hrec; [|done].
      apply andb_true_iff in Hrec as [Ht0 _]. apply Nat.eqb_eq in Ht0 as ->.
      simplify_eq. eapply Hcase; [reflexivity| |]; simpl;
        unfold depth_held, set_lock; intros Ht'.
      * destruct (decide (m = m0)) as [->|?].
        -- rewrite Hm0, decide_True, Nat.eqb_refl by done. lia.
        -- by rewrite (decide_False (P := m0 = m)) by done.
      * destruct (decide (m = m0)) as [->|?]; [|done].
        rewrite Hm0. by rewrite (proj2 (Nat.eqb_neq t t')) by done.
    + simplify_eq. eapply Hcase; [reflexivity| |]; simpl;
        unfold depth_held, set_lock; intros Ht'.
      * destruct (decide (m = m0)) as [->|?].
        -- rewrite Hm0, decide_True, Nat.eqb_refl by done. lia.
        -- by rewrite (decide_False (P := m0 = m)) by done.
      * destruct (decide (m = m0)) as [->|?]; [|done].
        rewrite Hm0. by rewrite (proj2 (Nat.eqb_neq t t')) by done.
  - (* Unlock *)
    destruct (cfg_locks c m0) as [[t0 [|d]]|] eqn:Hm0; [done| |done].
    destruct (t0 =? t)%nat eqn:Ht0; [|done]. apply Nat.eqb_eq in Ht0 as ->.
    simplify_eq. eapply Hcase; [reflexivity| |]; simpl;
      unfold depth_held, set_lock; intros Ht'.
    + destruct (decide (m = m0)) as [->|?].
      * rewrite Hm0, decide_True, Nat.eqb_refl by done.
        destruct d; [lia|]. rewrite Nat.eqb_refl. lia.
      * by rewrite (decide_False (P := m0 = m)) by done.
    + destruct (decide (m = m0)) as [->|?]; [|done].
      rewrite Hm0. rewrite (proj2 (Nat.eqb_neq t t')) by done.
      destruct d; [done|]. by rewrite (proj2 (Nat.eqb_neq t t')) by done.
  - (* Run *)
    simplify_eq. by eapply Hcase.
Qed.

Lemma run_config_balance m schedule : forall c c',
  run_config schedule c = Some c' ->
  forall t' rest', cfg_threads c' !! t' = Some rest' ->
    exists rest, cfg_threads c !! t' = Some rest /\
      surplus m rest' - depth_held m t' (cfg_locks c') =
      surplus m rest - depth_held m t' (cfg_locks c).
Proof.
  induction schedule as [|t schedule IH]; intros c c' Hrun t' rest' Hrest'.
  - simplify_eq/=. by exists rest'.
  - simpl in Hrun. apply bind_Some in Hrun as ([c1 label] & Hstep & Hrun). simpl in Hrun.
    destruct (IH _ _ Hrun _ _ Hrest') as (rest1 & Hrest1 & Heq1).
    destruct (step_balance m _ _ _ _ Hstep _ _ Hrest1) as (rest & Hrest & Heq).
    exists rest. split; [done|lia].
Qed.

Lemma depth_held_nonneg m t l : 0 <= depth_held m t l.
Proof. unfold depth_held. destruct (l m) as [[t' d]|]; [|done]. destruct (t' =? t)%nat; lia. Qed.

(** X20: a call of [KFTrack] releases [obj_mutex_] once more than it
    acquires it: by [obj_mutex_.unlock()], and again by the destructor of
    [obj_lock]. As a thread can only release a mutex that it holds, no call
    runs to its end, whatever the arms of the reconciliation, the number of
    concurrent calls and their interleaving. *)
Theorem KFTrack_releases_obj_mutex_twice threads schedule c' t :
  Forall (fun events => exists b, events = KFTrack_events b) threads ->
  run_config schedule (start threads) = Some c' ->
  cfg_threads c' !! t <> Some [].
Proof.
  intros Hthreads Hrun Hdone.
  destruct (run_config_balance obj_mutex_ _ _ _ Hrun _ _ Hdone) as (rest & Hrest & Heq).
  simpl in Hrest. destruct (Forall_lookup_1 _ _ _ _ Hthreads Hrest) as [b ->].
  pose proof (depth_held_nonneg obj_mutex_ t (cfg_locks c')).
  assert (surplus obj_mutex_ (KFTrack_events b) = 1) as Hone by (by destruct b).
  rewrite Hone in Heq. simpl in Heq.
  change (depth_held obj_mutex_ t no_locks) with 0 in Heq. lia.
Qed.

Lemma KFTrack_releases_obj_mutex_twice_witness :
  exists c',
    run_config (alone Create) (start [KFTrack_events Create]) = Some c' /\
    cfg_threads c' !! 0%nat <> Some [].
Proof.
  destruct (run_config (alone Create) (start [KFTrack_events Create])) as [c'|] eqn:Hrun;
    [|vm_compute in Hrun; discriminate Hrun].
  exists c'. split; [reflexivity|].
  apply (KFTrack_releases_obj_mutex_twice [KFTrack_events Create] (alone Create) c' 0).
  - apply Forall_cons_2; [by exists Create|apply Forall_nil_2].
  - exact Hrun.
Defined.

(** A call run alone stops before its last event, the release of
    [obj_mutex_] by the destructor of [obj_lock]. *)
Example KFTrack_alone_last_event (b : branch) :
  (cfg_threads <$> run_config (alone b) (start [KFTrack_events b])) =
    Some [[Unlock obj_mutex_]] /\
  run_config (alone b ++ [0%nat]) (start [KFTrack_events b]) = None.
Proof. by destruct b. Qed.

(** X24: the prediction loop takes no mutex: whatever arms two calls
    take, when one of them holds [filter_mutex_] and is about to run its
    correction loop, the other can run its prediction loop on the same bank
    of filters, holding nothing. *)
Theorem prediction_beside_correction (b0 b1 : branch) :
  exists c c',
    run_config (replicate (length (KFTrack_events b0) - 3) 0%nat)
      (start [KFTrack_events b0; KFTrack_events b1]) = Some c /\
    cfg_locks c filter_mutex_ = Some (0%nat, 1%nat) /\
    step 1 c = Some (c', Some (1%nat, Predict, [])) /\
    (exists c'', step 0 c' = Some (c'', Some (0%nat, Correct, [filter_mutex_]))).
Proof.
  destruct b0, b1; do 2 eexists; split_and!; try (vm_compute; reflexivity);
    eexists; vm_compute; reflexivity.
Qed.

End LockBalanceProperties.

(** ** How far the bank can grow *)

Lemma count_set_insert flags c :
  (count_set (<[c := true]> flags) <= S (count_set flags))%nat.
Proof.
  unfold count_set. revert c. induction flags as [|b flags IH]; intros c; [simpl; lia|].
  destruct c as [|c]; simpl; rewrite !list.filter_cons.
  - destruct (decide (true = true)); [|done]. destruct (decide (b = true)); simpl; lia.
  - specialize (IH c). destruct (decide (b = true)); simpl; lia.
Qed.

Lemma count_set_clear flags :
  Forall (fun b => b = false) flags -> count_set flags = 0%nat.
Proof.
  unfold count_set. induction 1 as [|b flags -> _ IH]; [done|].
  rewrite list.filter_cons. by destruct (decide (false = true)).
Qed.

(** The centres whose flag is clear are the centres less the flags that
    are set. *)
Lemma unmatched_centres_length cCentres : forall flags,
  length flags = length cCentres ->
  (length (unmatched_centres cCentres flags) + count_set flags)%nat = length cCentres.
Proof.
  unfold unmatched_centres, count_set.
  induction cCentres as [|c cCentres IH]; intros [|b flags] Hlen; simplify_eq/=; [done|].
  specialize (IH flags ltac:(done)). rewrite length_fmap in IH.
  rewrite length_fmap, !list.filter_cons.
  destruct b.
  - rewrite decide_False, decide_True by done. simpl. lia.
  - rewrite decide_True, decide_False by done. simpl. lia.
Qed.

(** Each iteration of the matching loop sets one flag at most. *)
Lemma match_objID_count_set n pred cCentres used vec used' :
  match_objID n pred cCentres used = Some (vec, used') ->
  length used' = length used /\ (count_set used' <= count_set used + n)%nat.
Proof.
  unfold match_objID. intros Hrun.
  apply bind_Some in Hrun as ([[vec0 used0] D] & Hloop & ?). simplify_eq/=.
  refine (proj2 (for_each_counted (fun k st =>
            match_inv (length cCentres) st /\
            (length (snd (fst st)) = length used /\
             (count_set (snd (fst st)) <= count_set used + k)%nat))
            _ _ _ _ Hloop _ _)).
  - split_and!; [apply match_inv_init|done|simpl; lia].
  - intros k [[v1 u1] D1] [[v2 u2] D2] _ (Hinv & Hlen & Hcount) Hstep.
    simpl in Hlen, Hcount.
    split; [by destruct (match_step_inv _ _ _ Hinv Hstep)|]. simpl.
    destruct (match_step_effect _ _ _ _ _ _ _ Hinv Hstep)
      as (r & c & _ & _ & _ & -> & ->).
    rewrite length_insert. split; [done|].
    pose proof (count_set_insert u1 c). lia.
Qed.

Section Growth.
Variable cv_predict : KalmanFilter -> KalmanFilter * list float.
Variable cv_correct : KalmanFilter -> list float -> KalmanFilter.

(** X21: when the array [cluster_used] holds [false] where it is
    declared, a call of [KFTrack] that stays within defined behaviour has
    at most twice as many centres as tracks: the creation loop writes the
    unmatched centres from slot [diff] on, and there are [diff] of them.
    In particular a tracker whose bank is empty completes no cycle on a
    frame with a centre. *)
Theorem KFTrack_clusters_at_most_double ccs_data uninit st st' cCentres :
  KFTrack cv_predict cv_correct ccs_data uninit st = Some st' ->
  centres_of_data ccs_data = Some cCentres ->
  (forall i, (i < length cCentres)%nat -> uninit i = false) ->
  (length (k_filters_ st) <= length cCentres <= 2 * length (k_filters_ st))%nat.
Proof.
  intros Hrun Hdata Hclear.
  apply KFTrack_phases in Hrun
    as (fs & pts & cs & ids & used & st1 & Hpred & Hdata' & Hmatch & Hrec & _).
  assert (cs = cCentres) as -> by congruence.
  apply predict_all_length in Hpred as [Hfs Hpts].
  destruct (match_objID_assignment _ _ _ _ _ _ Hmatch) as (Hlen & Hcount & Hnd & Hrange).
  pose proof (NoDup_bounded_length _ _ Hnd Hrange) as Hle. rewrite Hcount in Hle.
  split; [done|].
  apply match_objID_count_set in Hmatch as [Hused Hset].
  unfold upto in Hused, Hset. rewrite length_fmap, length_seq in Hused.
  rewrite (count_set_clear (uninit <$> seq 0 (length cCentres))) in Hset.
  2:{ apply Forall_fmap, list.Forall_forall. intros i Hi. apply elem_of_seq in Hi.
      simpl. apply Hclear. lia. }
  pose proof (unmatched_centres_length cCentres used Hused) as HU.
  unfold reconcile in Hrec. simpl in Hrec.
  destruct (length ids <? length cCentres)%nat eqn:Hcmp;
    [apply Nat.ltb_lt in Hcmp|apply Nat.ltb_ge in Hcmp; lia].
  apply bind_Some in Hrec as (fs1 & Hseed & _).
  destruct (seed_new_filters_written _ _ _ _ _ Hseed) as (_ & Hw & _).
  destruct (unmatched_centres cCentres used) as [|c0 U _] using rev_ind;
    [simpl in HU; lia|].
  destruct (Hw (length U) c0) as (f & Hf & _).
  { by rewrite lookup_app_r, Nat.sub_diag by done. }
  apply lookup_lt_Some in Hf. rewrite _init_KFilters_length in Hf.
  rewrite length_app in HU. simpl in HU. lia.
Qed.
End Growth.

Lemma KFTrack_clusters_at_most_double_witness :
  (length (k_filters_ Examples.one_track) <=
   length [Examples.point 1 1 0; Examples.point 5 5 0] <=
   2 * length (k_filters_ Examples.one_track))%nat.
Proof.
  destruct (KFTrack OpenCV.predict OpenCV.correct (Examples.message [(1, 1); (5, 5)])
              (fun _ => false) Examples.one_track) as [st'|] eqn:Hrun;
    [|vm_compute in Hrun; discriminate Hrun].
  apply (KFTrack_clusters_at_most_double OpenCV.predict OpenCV.correct
           (Examples.message [(1, 1); (5, 5)]) (fun _ => false) Examples.one_track st').
  - exact Hrun.
  - vm_compute. reflexivity.
  - reflexivity.
Defined.

(** ** The prediction loop and the measurement model *)

Section Prediction.
Variable cv_predict : KalmanFilter -> KalmanFilter * list float.

Lemma predicted_point_is_Some p :
  is_Some (predicted_point p) <-> (3 <= length p)%nat.
Proof.
  unfold predicted_point. split.
  - intros [pt Hpt].
    apply bind_Some in Hpt as (x & _ & Hpt). apply bind_Some in Hpt as (y & _ & Hpt).
    apply bind_Some in Hpt as (z & Hz & _). apply lookup_lt_Some in Hz. lia.
  - intros Hlen. destruct p as [|x [|y [|z p]]]; simpl in Hlen; try lia. by eexists.
Qed.

(** X22: the prediction loop reads the entries 0, 1 and 2 of the matrix
    that each [predict()] returns: it stays within these matrices exactly
    when each of them has three entries or more, and it then leaves in the
    bank, in order, the filters as [predict()] left them. *)
Theorem predict_all_reads_three_entries fs :
  (is_Some (predict_all cv_predict fs) <->
   Forall (fun f => (3 <= length (snd (cv_predict f)))%nat) fs) /\
  (forall fs' pts, predict_all cv_predict fs = Some (fs', pts) ->
     fs' = (fun f => fst (cv_predict f)) <$> fs /\
     Some <$> pts = (fun f => predicted_point (snd (cv_predict f))) <$> fs).
Proof.
  split; [split|].
  - intros [[fs' pts] Hrun]. apply predict_all_spec in Hrun as [_ Hpts].
    induction Hpts as [|f pt fs0 pts0 Hpt _ IH]; constructor; [|done].
    apply predicted_point_is_Some. by eexists.
  - unfold predict_all. intros Hall.
    set (acc := (@nil KalmanFilter, @nil Point)). clearbody acc. revert acc.
    induction Hall as [|f fs0 Hf _ IH]; intros [acc1 acc2]; [by eexists|].
    cbn [for_each]. destruct (cv_predict f) as [f' p] eqn:Hp. simpl in Hf.
    apply predicted_point_is_Some in Hf as [pt Hpt]. rewrite Hpt. simpl. apply IH.
  - intros fs' pts Hrun. apply predict_all_spec in Hrun as [Hfs Hpts]. split.
    + clear Hpts. induction Hfs as [|f f' fs0 fs0' -> _ IH]; [done|].
      rewrite fmap_cons. congruence.
    + clear Hfs. induction Hpts as [|f pt fs0 pts0 Hpt _ IH]; [done|].
      rewrite !fmap_cons. congruence.
Qed.
End Prediction.

(** X23: the measurement matrix that [_init_KFilters] gives to every
    filter it pushes is the 2 x 4 identity: read in exact arithmetic, it
    observes the position [(x, y)] of a state and nothing of its
    velocity. *)
Theorem measurement_observes_position (A : Type) `{ArithLaws A} (x y vx vy : A) :
  (forall cnt fs i, (length fs <= i < length fs + cnt)%nat ->
     measurementMatrix <$> _init_KFilters cnt fs !! i =
       Some (scaled_identity 2 4 (float_of_Z 1))) /\
  mat_vec (scaled_identity 2 4 a_one) [x; y; vx; vy] = [x; y].
Proof.
  split.
  - intros cnt fs i Hi.
    destruct (_init_KFilters_appends cnt fs) as (_ & _ & Hnew).
    by rewrite (Hnew i Hi).
  - unfold mat_vec, scaled_identity, dot. simpl.
    by rewrite !a_mul_0_l, !a_mul_1_l, !a_add_0_l, !a_add_0_r.
Qed.

Lemma measurement_observes_position_witness :
  mat_vec (scaled_identity 2 4 1%Qc) [Q2Qc 1; Q2Qc 2; Q2Qc 3; Q2Qc 4] = [Q2Qc 1; Q2Qc 2].
Proof.
  exact (proj2 (measurement_observes_position Qc (Q2Qc 1) (Q2Qc 2) (Q2Qc 3) (Q2Qc 4))).
Defined.

(** * The claims on complete frames *)

(** ** C4: the assignment that is not delivered *)

(** Erasing a column writes into every row. *)
Lemma erase_column_in_range col D D' :
  erase_column col D = Some D' ->
  forall r row, D !! r = Some row -> 0 <= col < Z.of_nat (length row).
Proof.
  unfold erase_column. intros Hrun r row Hr.
  assert ((r < length D)%nat -> 0 <= col < Z.of_nat (length row)) as Hgoal;
    [|apply Hgoal; by eapply lookup_lt_Some].
  refine (proj2 (for_each_counted (fun k dm =>
            (forall r', (k <= r')%nat -> dm !! r' = D !! r') /\
            ((r < k)%nat -> 0 <= col < Z.of_nat (length row)))
            _ _ _ _ Hrun _ _)).
  - split; [done|lia].
  - intros k dm dm' Hk [Hhigh Hlow] Hbody.
    apply bind_Some in Hbody as (row0 & Hrow0 & Hbody).
    apply bind_Some in Hbody as (row1 & Hset & [= <-]).
    apply vec_set_Some in Hset as (H0 & Hlt & _). split.
    + intros r' Hr'. rewrite list_lookup_insert_ne by lia. apply Hhigh. lia.
    + intros Hrk. destruct (decide (r = k)) as [->|]; [|apply Hlow; lia].
      rewrite Hhigh in Hrow0 by done. assert (row0 = row) as -> by congruence. lia.
Qed.

(** The matrix after the first selection of the matching loop: the row of
    the selection holds six entries, every other row as many as before; and
    the column of the selection is one of the first six. *)
Lemma match_step_rows vec used D vec' used' D' i j :
  findMinIDX D = Some (i, j) ->
  match_step (vec, used, D) = Some (vec', used', D') ->
  exists r,
    i = Z.of_nat r /\ 0 <= j < 6 /\ length D' = length D /\
    (exists row', D' !! r = Some row' /\ length row' = 6%nat) /\
    (forall r' row, r' <> r -> D !! r' = Some row ->
       exists row', D' !! r' = Some row' /\ length row' = length row).
Proof.
  intros Hmin Hstep. unfold match_step in Hstep. rewrite Hmin in Hstep.
  cbn [mbind option_bind] in Hstep.
  apply bind_Some in Hstep as ([vec1 used1] & _ & Hstep).
  apply bind_Some in Hstep as (D1 & HD1 & Hstep).
  apply bind_Some in Hstep as (D2 & HD2 & [= <- <- <-]). cbn [fst snd] in HD1, HD2.
  apply vec_set_Some in HD1 as (Hi & Hr & ->).
  pose proof (erase_column_length _ _ _ HD2) as Hlen. rewrite length_insert in Hlen.
  assert (forall r' row, <[Z.to_nat i := replicate 6 FLT_MAX]> D !! r' = Some row ->
            exists row', D2 !! r' = Some row' /\ length row' = length row) as Hrows.
  { intros r' row Hrow.
    destruct (lookup_lt_is_Some_2 D2 r') as [row' Hrow'].
    { rewrite Hlen. rewrite <- (length_insert D (Z.to_nat i) (replicate 6 FLT_MAX)).
      by eapply lookup_lt_Some. }
    destruct (erase_column_spec _ _ _ HD2 _ _ Hrow') as (row0 & Hrow0 & ->).
    exists (<[Z.to_nat j := FLT_MAX]> row0). split; [done|].
    rewrite length_insert. congruence. }
  exists (Z.to_nat i). split; [lia|]. split; [|split; [done|split]].
  - pose proof (erase_column_in_range _ _ _ HD2 (Z.to_nat i) (replicate 6 FLT_MAX)) as Hj.
    rewrite list_lookup_insert_eq in Hj by done. specialize (Hj eq_refl).
    by rewrite length_replicate in Hj.
  - destruct (Hrows (Z.to_nat i) (replicate 6 FLT_MAX)) as (row' & ? & Hl).
    { by rewrite list_lookup_insert_eq. }
    exists row'. by rewrite Hl, length_replicate.
  - intros r' row Hne Hrow. apply Hrows. by rewrite list_lookup_insert_ne.
Qed.

(** C4 (the code departs from the claim): [match_objID] delivers no
    assignment, one-to-one or not, in most frames with two tracks or more.
    Its loop replaces the row of a selection by six entries, whatever the
    number of centres, and then writes into the column of the selection in
    every row: the call leaves the bounds of the matrix when the selected
    centre is not one of the first six, when there are fewer than six
    centres and the first selection is on track 0 (the next scan reads six
    columns of every row), and when there are more than six centres and the
    first selection is on another track (the next scan reads past the six
    entries of that row). *)
Theorem match_objID_selection_out_of_range pred cCentres used i j :
  findMinIDX (dist_matrix pred cCentres) = Some (i, j) ->
  (2 <= length pred)%nat ->
  ((length cCentres < 6)%nat /\ i = 0) \/
  ((6 < length cCentres)%nat /\ i <> 0) \/
  6 <= j ->
  match_objID (length pred) pred cCentres used = None.
Proof.
  intros Hmin Hpred Hcase. unfold match_objID.
  destruct (for_each _ _ _) as [st|] eqn:Hloop; [exfalso|done].
  destruct (length pred) as [|[|n]] eqn:Hn; [lia|lia|].
  change (upto (S (S n))) with (0%nat :: 1%nat :: seq 2 n) in Hloop.
  cbn [for_each] in Hloop.
  apply bind_Some in Hloop as ([[v1 u1] D1] & Hfirst & Hloop).
  apply bind_Some in Hloop as (st2 & Hsecond & _).
  destruct (match_step_rows _ _ _ _ _ _ _ _ Hmin Hfirst)
    as (r & -> & Hj & Hlen & (rowr & Hrowr & Hlenr) & Hother).
  unfold match_step in Hsecond.
  apply bind_Some in Hsecond as (ij & Hscan & _).
  assert (is_Some (findMinIDX D1)) as Hdef by (by eexists).
  apply findMinIDX_defined_iff in Hdef.
  assert (forall r' row, dist_matrix pred cCentres !! r' = Some row ->
            length row = length cCentres) as Hwidth.
  { intros r' row Hrow. unfold dist_matrix in Hrow.
    apply list_lookup_fmap_Some in Hrow as (pp & -> & _). by rewrite length_fmap. }
  assert (forall r', (r' < 2)%nat -> is_Some (dist_matrix pred cCentres !! r')) as Hrow.
  { intros r' Hr'. apply lookup_lt_is_Some_2. unfold dist_matrix.
    rewrite length_fmap. lia. }
  destruct Hcase as [[Hm Hi]|[[Hm Hi]|Hsix]]; [| |lia].
  - (* row 0 selected: six columns are read in row 1 *)
    assert (r = 0%nat) as -> by lia.
    destruct (Hrow 1%nat ltac:(lia)) as [row1 Hrow1].
    destruct (Hother 1%nat row1 ltac:(lia) Hrow1) as (row1' & Hrow1' & Hl1).
    rewrite (Hwidth _ _ Hrow1) in Hl1.
    pose proof (Forall_lookup_1 _ _ _ _ Hdef Hrow1') as Hshort. simpl in Hshort.
    destruct D1 as [|row0 D1]; [done|]. simpl in Hrowr, Hshort. simplify_eq. lia.
  - (* another row selected: row 0 keeps its length, that row has six entries *)
    assert (r <> 0%nat) as Hr by lia.
    destruct (Hrow 0%nat ltac:(lia)) as [row0 Hrow0].
    destruct (Hother 0%nat row0 ltac:(lia) Hrow0) as (row0' & Hrow0' & Hl0).
    rewrite (Hwidth _ _ Hrow0) in Hl0.
    pose proof (Forall_lookup_1 _ _ _ _ Hdef Hrowr) as Hshort. simpl in Hshort.
    destruct D1 as [|row0'' D1]; [done|]. simpl in Hrow0', Hshort. simplify_eq. lia.
Qed.

Lemma match_objID_selection_out_of_range_witness :
  match_objID (length [Examples.point 0 0 0; Examples.point 0 0 0])
    [Examples.point 0 0 0; Examples.point 0 0 0]
    [Examples.point 1 0 0; Examples.point 5 5 0] [false; false] = None.
Proof.
  apply (match_objID_selection_out_of_range
           [Examples.point 0 0 0; Examples.point 0 0 0]
           [Examples.point 1 0 0; Examples.point 5 5 0] [false; false] 0 0).
  - vm_compute. reflexivity.
  - cbn [length]. lia.
  - left. split; [cbn [length]; lia|reflexivity].
Defined.

(** Where this input comes from: after a first frame with the clusters (1,0)
    and (5,5), both tracks are predicted at the origin, and the same two
    clusters in the next frame get no assignment. The same happens with
    three clusters. *)
Example second_frame_without_assignment :
  OpenCV.run [[OpenCV.single 1 0; OpenCV.single 5 5];
              [OpenCV.single 1 0; OpenCV.single 5 5]] (ClusterTracker_new true) = None /\
  OpenCV.run [[OpenCV.single 1 0; OpenCV.single 5 5; OpenCV.single 9 9];
              [OpenCV.single 1 0; OpenCV.single 5 5; OpenCV.single 9 9]]
    (ClusterTracker_new true) = None /\
  snd <$> predict_all OpenCV.predict
            [seeded (cluster_centre (OpenCV.single 1 0));
             seeded (cluster_centre (OpenCV.single 5 5))] =
    Some [Examples.point 0 0 0; Examples.point 0 0 0].
Proof. split_and!; vm_compute; reflexivity. Qed.

(** ** C6, C8 and C10: over-provisioned frames, the first frame, the distance *)

Section ClaimsOnCycles.
Variable cv_predict : KalmanFilter -> KalmanFilter * list float.
Variable cv_correct : KalmanFilter -> list float -> KalmanFilter.

(** C6 (the code departs from the claim): a frame with fewer centres than
    the bank has filters, the over-provisioned frame on which the claim has
    the staleness counter incremented and, in the end, the unmatched slots
    deleted, never reaches the counter: [match_objID] leaves the bounds of
    its matrix first, and the call of [KFTrack] has no defined result.
    No frame is counted and no slot is ever pruned. *)
Theorem KFTrack_over_provisioned_frame_undefined ccs_data uninit st cCentres :
  centres_of_data ccs_data = Some cCentres ->
  (length cCentres < length (k_filters_ st))%nat ->
  KFTrack cv_predict cv_correct ccs_data uninit st = None.
Proof.
  intros Hdata Hlt.
  destruct (KFTrack cv_predict cv_correct ccs_data uninit st) as [st'|] eqn:Hrun; [|done].
  exfalso.
  apply KFTrack_phases in Hrun
    as (fs & pts & cs & ids & used & st1 & Hpred & Hdata' & Hmatch & _).
  assert (cs = cCentres) as -> by congruence.
  destruct (match_objID_assignment _ _ _ _ _ _ Hmatch) as (_ & Hcount & Hnd & Hrange).
  pose proof (NoDup_bounded_length _ _ Hnd Hrange). lia.
Qed.

(** C8 (the code departs from the claim): on the first frame
    [cloudCallback] creates one filter per cluster, and writes the position
    of the cluster and zero velocity into its [statePre]; [statePost] stays
    zero. As [predict()] computes the state from [statePost], the first
    prediction of every track is the origin, whatever the cluster was: the
    initial position that the seeding writes is not the position the track
    starts from. *)
Theorem first_frame_seed_lost_at_prediction clusters uninit visualize :
  exists fs,
    cloudCallback cv_predict cv_correct clusters uninit (ClusterTracker_new visualize) =
      Some (mkClusterTracker [] fs 0 visualize false) /\
    length fs = length clusters /\
    forall i cluster, clusters !! i = Some cluster ->
      exists f,
        fs !! i = Some f /\
        f = seeded (cluster_centre cluster) /\
        (valid_binary prec32 emax32 (xyz_x (cluster_centre cluster)) = true ->
         valid_binary prec32 emax32 (xyz_y (cluster_centre cluster)) = true ->
         statePre f =
           [xyz_x (cluster_centre cluster); xyz_y (cluster_centre cluster); fzero; fzero]) /\
        statePost f = [fzero; fzero; fzero; fzero] /\
        OpenCV.predict f = OpenCV.predict init_filter /\
        snd (OpenCV.predict f) = [fzero; fzero; fzero; fzero].
Proof.
  exists (seeded <$> (cluster_centre <$> clusters)). split_and!.
  - unfold cloudCallback, ClusterTracker_new. simpl.
    rewrite _init_KFilters_app. simpl.
    replace (length clusters) with (length (cluster_centre <$> clusters))
      by apply length_fmap.
    by rewrite seed_first_frame_fresh.
  - by rewrite !length_fmap.
  - intros i cluster Hi. exists (seeded (cluster_centre cluster)).
    split; [by rewrite !list_lookup_fmap, Hi|]. split; [done|].
    split; [apply statePre_seeded|].
    split; [reflexivity|]. split; [reflexivity|]. vm_compute. reflexivity.
Qed.





End ClaimsOnCycles.

Lemma KFTrack_over_provisioned_frame_undefined_witness :
  KFTrack OpenCV.predict OpenCV.correct (Examples.message [(1, 1)]) (fun _ => false)
    Runs.two_tracks = None.
Proof.
  apply (KFTrack_over_provisioned_frame_undefined OpenCV.predict OpenCV.correct
           (Examples.message [(1, 1)]) (fun _ => false) Runs.two_tracks
           [Examples.point 1 1 0]).
  - vm_compute. reflexivity.
  - cbn [length Runs.two_tracks k_filters_]. lia.
Defined.

(** The tracker [Runs.two_tracks] is the one that a first frame with the
    clusters (1,1) and (5,5) leaves; the run of the two frames has no
    defined result, with either of the two clusters left in the second
    frame. *)
Example over_provisioned_second_frame :
  OpenCV.run [[OpenCV.single 1 1; OpenCV.single 5 5]] (ClusterTracker_new true) =
    Some Runs.two_tracks /\
  OpenCV.run [[OpenCV.single 1 1; OpenCV.single 5 5]; [OpenCV.single 1 1]]
    (ClusterTracker_new true) = None /\
  OpenCV.run [[OpenCV.single 1 1; OpenCV.single 5 5]; [OpenCV.single 5 5]]
    (ClusterTracker_new true) = None.
Proof. split_and!; vm_compute; reflexivity. Qed.

Lemma first_frame_seed_lost_at_prediction_witness :
  exists fs,
    cloudCallback OpenCV.predict OpenCV.correct [OpenCV.single 1 0; OpenCV.single 5 5]
      (fun _ => false) (ClusterTracker_new true) =
      Some (mkClusterTracker [] fs 0 true false) /\
    length fs = 2%nat /\
    statePre <$> fs !! 1%nat = Some (Examples.state 5 5 0 0) /\
    (fun f => snd (OpenCV.predict f)) <$> fs !! 1%nat = Some (Examples.state 0 0 0 0).
Proof.
  destruct (first_frame_seed_lost_at_prediction OpenCV.predict OpenCV.correct
              [OpenCV.single 1 0; OpenCV.single 5 5] (fun _ => false) true)
    as (fs & Hrun & Hlen & Hslot).
  exists fs. split; [exact Hrun|]. split; [exact Hlen|].
  destruct (Hslot 1%nat (OpenCV.single 5 5) eq_refl) as (f & Hf & _ & Hpre & _ & _ & Hpred).
  rewrite Hf. cbn [fmap option_fmap option_map].
  rewrite Hpre by (vm_compute; reflexivity). rewrite Hpred.
  split; vm_compute; reflexivity.
Defined.

(** The example of the claim C8: after a first frame with the clusters
    (1,0) and (5,5) the two tracks hold these positions in [statePre], and
    the prediction of the next frame puts both at the origin. *)
Example first_frame_tracks_predicted_at_origin :
  (fun st => statePre <$> k_filters_ st) <$>
    OpenCV.run [[OpenCV.single 1 0; OpenCV.single 5 5]] (ClusterTracker_new true) =
    Some [Examples.state 1 0 0 0; Examples.state 5 5 0 0] /\
  (OpenCV.run [[OpenCV.single 1 0; OpenCV.single 5 5]] (ClusterTracker_new true) ≫=
     fun st => snd <$> predict_all OpenCV.predict (k_filters_ st)) =
    Some [Examples.point 0 0 0; Examples.point 0 0 0].
Proof. split; vm_compute; reflexivity. Qed.


(** The frame above: the track has followed a cluster over three
    frames, its predicted state has a velocity that is not zero, and the
    entry of the matrix for the cluster at (8,8) is not the distance in the
    plane between the predicted position and the cluster. *)
Example moving_track_association_distance :
  OpenCV.run Runs.moving_cluster (ClusterTracker_new true) = Some Runs.moving_track /\
  (fun f => snd (OpenCV.predict f)) <$> k_filters_ Runs.moving_track =
    [[S754_finite false 8588723 (-20); S754_finite false 8588723 (-20);
      S754_finite false 15002139 (-36); S754_finite false 15002139 (-36)]] /\
  association_matrix ((fun f => snd (OpenCV.predict f)) <$> k_filters_ Runs.moving_track)
    (cluster_centre <$> [OpenCV.single 8 8]) = [[S754_finite false 9056174 (-25)]] /\
  planar_distance (S754_finite false 8588723 (-20)) (S754_finite false 8588723 (-20))
    (float_of_Z 8) (float_of_Z 8) = S754_finite false 9056171 (-25).
Proof. split_and!; vm_compute; reflexivity. Qed.
